(** * InputField and DataTable: a shallow embedding of the two components

    The development follows [src/components/DataTable/DataTable.tsx] and
    [src/components/InputField/InputField.tsx].  A component is a set of pure
    functions over its props and its hook state: the initial state
    ([useState]), the render function, the effects that follow a render
    ([useEffect]) and the event handlers.  A handler returns the next state
    together with the list of callback invocations it made, in order.

    JavaScript numbers are represented by the integers ([Z]): the doubles that
    hold an integral value.  [NaN], the infinities and fractions lie outside
    the model.  Class names and icon markup are left out. *)

From stdpp Require Import base decidable option list sorting strings pretty gmap.

Open Scope Z_scope.

(** ** JavaScript values *)

Inductive JsValue :=
  | JUndefined
  | JNull
  | JBoolean (b : bool)
  | JNumber (n : Z)
  | JString (s : string).

Global Instance JsValue_eq_dec : EqDecision JsValue.
Proof. solve_decision. Defined.

(** A row is a JavaScript object whose own properties are the record's
    fields.  Rows are told apart by their content. *)
Abbreviation Row := (gmap string JsValue).

(** [r[k]]: reading a property that the object does not have gives [undefined]. *)
Definition get (r : Row) (k : string) : JsValue := default JUndefined (r !! k).

(** [v == null] *)
Definition isNullish (v : JsValue) : bool :=
  match v with
  | JUndefined | JNull => true
  | _ => false
  end.

(** The values of a numeric field: numbers, [null] and [undefined]. *)
Definition numeric_or_nullish (v : JsValue) : Prop :=
  match v with
  | JUndefined | JNull | JNumber _ => True
  | _ => False
  end.


(** The values of a field that holds no number. *)
Definition not_a_number (v : JsValue) : Prop :=
  match v with
  | JNumber _ => False
  | _ => True
  end.

(** [String(v)] *)
Definition String_ (v : JsValue) : string :=
  match v with
  | JUndefined => "undefined"
  | JNull => "null"
  | JBoolean true => "true"
  | JBoolean false => "false"
  | JNumber n => pretty n
  | JString s => s
  end.

(** [v ?? d] *)
Definition nullish_or {A} (v : option A) (d : A) : A := default d v.

(** Truthiness of an optional boolean prop and of an optional string prop. *)
Definition truthy (b : option bool) : bool := nullish_or b false.

Definition truthy_str (s : option string) : bool :=
  match s with
  | Some s => negb (bool_decide (s = ""))
  | None => false
  end.

(** [keys.includes(k)] compares with SameValueZero and [k !== key] with strict
    equality; on the values of this model both are structural equality. *)
Definition includes (keys : list JsValue) (k : JsValue) : bool :=
  bool_decide (k ∈ keys).

(** ** Callbacks

    A callback prop is either left out or a function of the caller.  What the
    component decides is whether the function is called and with which
    arguments; [f?.(args)] contributes one invocation when [f] is supplied and
    none otherwise. *)

Inductive Callback := Absent | Supplied.

Definition call {I} (f : Callback) (invocation : I) : list I :=
  match f with
  | Supplied => [invocation]
  | Absent => []
  end.

(** ** [Array.prototype.sort]

    The sort is stable and orders by the sign of the comparison function: [x]
    goes after [y] exactly when [comparefn x y] is positive.  The language
    leaves the algorithm to the engine; here elements are inserted from the
    right, each one in front of the first element that it does not have to
    follow, so that equal elements keep their order.  On a comparison
    function that is consistent every stable sort gives the same result
    ([stable_sorted_unique]). *)

Section ArraySort.
Context {A : Type} (comparefn : A → A → Z).

Fixpoint sort_insert (x : A) (l : list A) : list A :=
  match l with
  | [] => [x]
  | y :: l' => if 0 <? comparefn x y then y :: sort_insert x l' else x :: l
  end.

Definition Array_sort (l : list A) : list A := foldr sort_insert [] l.

(** The order that the comparison function induces, and its equivalence. *)
Definition cmp_le (a b : A) : Prop := comparefn a b ≤ 0.
Definition cmp_eq (a b : A) : Prop := comparefn a b = 0.

Global Instance cmp_eq_dec a b : Decision (cmp_eq a b).
Proof. unfold cmp_eq. apply _. Defined.

Global Instance cmp_le_dec a b : Decision (cmp_le a b).
Proof. unfold cmp_le. apply _. Defined.

(** A comparison function is consistent on the elements of [l] when it is
    antisymmetric in sign and its order is transitive there. *)
Definition ConsistentOn (l : list A) : Prop :=
  (∀ a b, a ∈ l → b ∈ l → Z.sgn (comparefn b a) = - Z.sgn (comparefn a b)) ∧
  (∀ a b c, a ∈ l → b ∈ l → c ∈ l → cmp_le a b → cmp_le b c → cmp_le a c).

End ArraySort.

(** ** DataTable: the data model *)

Inductive Direction := asc | desc.

Global Instance Direction_eq_dec : EqDecision Direction.
Proof. solve_decision. Defined.

Record SortConfig := { key : string; direction : Direction }.

Global Instance SortConfig_eq_dec : EqDecision SortConfig.
Proof. solve_decision. Defined.

Section Comparator.
(** [String.prototype.localeCompare] belongs to the host; it is a parameter. *)
Variable localeCompare : string → string → Z.

(** The comparison function that [sortedData] passes to [sort]. *)
Definition compareRows (k : string) (d : Direction) (a b : Row) : Z :=
  let aVal := get a k in
  let bVal := get b k in
  if isNullish aVal && isNullish bVal then 0
  else if isNullish aVal then (if d is asc then -1 else 1)
  else if isNullish bVal then (if d is asc then 1 else -1)
  else match aVal, bVal with
       | JNumber x, JNumber y => if d is asc then x - y else y - x
       | _, _ =>
           if d is asc then localeCompare (String_ aVal) (String_ bVal)
           else localeCompare (String_ bVal) (String_ aVal)
       end.

Definition sortedData (data : list Row) (sortConfig : option SortConfig) : list Row :=
  match sortConfig with
  | None => data
  | Some {| key := k; direction := d |} => Array_sort (compareRows k d) data
  end.
End Comparator.

(** ** DataTable *)

Module Column.
(** [Column<T>]; [width] is a display hint and is left out.  A [render]
    function produces the displayed content of a cell. *)
Record t := {
  key : string;
  title : string;
  dataIndex : string;
  sortable : option bool;
  render : option (JsValue → Row → string)
}.
End Column.

Module DataTable.

Inductive SelectMode := single | multiple.

(** [DataTableProps<T>] *)
Record Props := {
  data : list Row;
  columns : list Column.t;
  loading : option bool;
  selectable : option bool;
  selectMode : option SelectMode;
  selectedRowKeys : option (list JsValue);
  rowKey : option string;
  onRowSelect : Callback;
  onSort : Callback
}.

(** The defaults of the destructured props. *)
Definition loading_ (p : Props) : bool := nullish_or (loading p) false.
Definition selectable_ (p : Props) : bool := nullish_or (selectable p) false.
Definition selectMode_ (p : Props) : SelectMode := nullish_or (selectMode p) multiple.
Definition rowKey_ (p : Props) : string := nullish_or (rowKey p) "id".

(** The two [useState] cells. *)
Record State := {
  sortConfig : option SortConfig;
  internalSelectedKeys : list JsValue
}.

Definition useState : State :=
  {| sortConfig := None; internalSelectedKeys := [] |}.

(** The calls that the table makes to the props [onRowSelect] and [onSort]. *)
Inductive Invocation :=
  | OnRowSelect (selectedRows : list Row)
  | OnSort (k : string) (d : option Direction).

Definition selectedKeys (p : Props) (s : State) : list JsValue :=
  nullish_or (selectedRowKeys p) (internalSelectedKeys s).

Definition toggleSort (p : Props) (s : State) (k : string) (sortable : option bool)
  : State * list Invocation :=
  if negb (truthy sortable) then (s, [])
  else
    let next :=
      if decide (key <$> sortConfig s = Some k) then
        match sortConfig s with
        | Some {| direction := asc |} => Some {| key := k; direction := desc |}
        | _ => None
        end
      else Some {| key := k; direction := asc |} in
    ({| sortConfig := next; internalSelectedKeys := internalSelectedKeys s |},
     call (onSort p)
       (OnSort (if next is Some n then key n else k)
               (if next is Some n then Some (direction n) else None))).

Definition updateSelection (p : Props) (s : State) (keys : list JsValue)
  : State * list Invocation :=
  let s' :=
    if selectedRowKeys p is None
    then {| sortConfig := sortConfig s; internalSelectedKeys := keys |}
    else s in
  let rows := filter (λ r, includes keys (get r (rowKey_ p))) (data p) in
  (s', call (onRowSelect p) (OnRowSelect rows)).

Definition handleSelectAll (p : Props) (s : State) (checked : bool)
  : State * list Invocation :=
  if negb (selectable_ p) then (s, [])
  else if checked then
    let keys := (λ r, get r (rowKey_ p)) <$> data p in
    updateSelection p s keys
  else updateSelection p s [].

Definition toggleRow (p : Props) (s : State) (row : Row) : State * list Invocation :=
  if negb (selectable_ p) then (s, [])
  else
    let k := get row (rowKey_ p) in
    match selectMode_ p with
    | single =>
        let isSelected := includes (selectedKeys p s) k in
        updateSelection p s (if isSelected then [] else [k])
    | multiple =>
        let isSelected := includes (selectedKeys p s) k in
        let next :=
          if isSelected then filter (λ k', k' ≠ k) (selectedKeys p s)
          else selectedKeys p s ++ [k] in
        updateSelection p s next
    end.

(** *** Rendering *)

Inductive AriaSort := ascending | descending | none.

Record HeaderCell := {
  header_title : string;
  ariaSort : AriaSort;
  sortIndicator : option string
}.

Record BodyRow := {
  row_key : JsValue;
  isSelected : bool;
  cells : list string
}.

(** What the component returns: one of the two placeholders or the table;
    [selectAll] is the checked state of the header checkbox, which exists
    only when the table is selectable. *)
Inductive View :=
  | LoadingView
  | EmptyView
  | TableView (selectAll : option bool) (head : list HeaderCell) (body : list BodyRow).

Definition allSelected (p : Props) (s : State) : bool :=
  bool_decide (0 < length (data p))%nat &&
  bool_decide (length (selectedKeys p s) = length (data p)).

Definition renderHeader (s : State) (col : Column.t) : HeaderCell :=
  let isSorted := bool_decide (key <$> sortConfig s = Some (Column.key col)) in
  let isAsc := bool_decide (direction <$> sortConfig s = Some asc) in
  {| header_title := Column.title col;
     ariaSort := if isSorted then (if isAsc then ascending else descending) else none;
     sortIndicator :=
       if truthy (Column.sortable col)
       then Some (if isSorted then (if isAsc then "↑" else "↓") else "↕")
       else None |}.

Definition renderCell (row : Row) (col : Column.t) : string :=
  match Column.render col with
  | Some f => f (get row (Column.dataIndex col)) row
  | None =>
      String_ (if isNullish (get row (Column.dataIndex col)) then JString ""
               else get row (Column.dataIndex col))
  end.

Section Render.
Variable localeCompare : string → string → Z.

Definition renderRow (p : Props) (s : State) (row : Row) : BodyRow :=
  let k := get row (rowKey_ p) in
  {| row_key := k;
     isSelected := includes (selectedKeys p s) k;
     cells := renderCell row <$> columns p |}.

Definition DataTable (p : Props) (s : State) : View :=
  if loading_ p then LoadingView
  else if bool_decide (length (data p) = 0%nat) then EmptyView
  else
    TableView
      (if selectable_ p then Some (allSelected p s) else None)
      (renderHeader s <$> columns p)
      (renderRow p s <$> sortedData localeCompare (data p) (sortConfig s)).
End Render.

(** *** User interaction *)

Inductive Event :=
  | ClickHeader (col : Column.t)
  | ClickRow (row : Row)
  | ChangeRowCheckbox (row : Row)
  | ChangeSelectAll (checked : bool).

(** The row checkbox stops the propagation of its click, so that a click on
    it toggles the row once, like a click elsewhere in the row. *)
Definition handle (p : Props) (s : State) (ev : Event) : State * list Invocation :=
  match ev with
  | ClickHeader col => toggleSort p s (Column.key col) (Column.sortable col)
  | ClickRow row | ChangeRowCheckbox row => toggleRow p s row
  | ChangeSelectAll checked => handleSelectAll p s checked
  end.

(** A sequence of interactions under fixed props: the final state and all
    the invocations made, in order. *)
Fixpoint run (p : Props) (s : State) (evs : list Event) : State * list Invocation :=
  match evs with
  | [] => (s, [])
  | ev :: evs' =>
      let '(s1, c1) := handle p s ev in
      let '(s2, c2) := run p s1 evs' in
      (s2, c1 ++ c2)
  end.

(** The one interaction that selects several rows at once. *)
Definition checks_all (ev : Event) : bool :=
  match ev with
  | ChangeSelectAll true => true
  | _ => false
  end.

(** The identity keys of the rows of the data, in the order of the data. *)
Definition dataKeys (p : Props) : list JsValue :=
  (λ r, get r (rowKey_ p)) <$> data p.

(** The selection that an interaction asks for, as the spec words it, from
    the keys currently selected (those of the caller when it supplies them):
    in single mode the clicked row alone, or nothing if it was selected; in
    multiple mode the current keys with the key of the clicked row removed or
    added; every key of the data for the header checkbox checked, and nothing
    for it unchecked.  A table that is not selectable, and a click on a
    header, ask for none. *)
Definition nextSelection (p : Props) (s : State) (ev : Event) : option (list JsValue) :=
  if selectable_ p then
    match ev with
    | ClickHeader _ => None
    | ClickRow row | ChangeRowCheckbox row =>
        let k := get row (rowKey_ p) in
        let current := selectedKeys p s in
        Some match selectMode_ p with
             | single => if bool_decide (k ∈ current) then [] else [k]
             | multiple =>
                 if bool_decide (k ∈ current)
                 then filter (λ k', k' ≠ k) current
                 else current ++ [k]
             end
    | ChangeSelectAll checked => Some (if checked then dataKeys p else [])
    end
  else None.

(** The rows that can be clicked are rows of the data. *)
Definition on_data (p : Props) (ev : Event) : Prop :=
  match ev with
  | ClickRow row | ChangeRowCheckbox row => row ∈ data p
  | _ => True
  end.

Definition header_click (ev : Event) : bool :=
  match ev with
  | ClickHeader _ => true
  | _ => false
  end.

(** A click on the header of a column that is not sortable. *)
Definition plain_header_click (ev : Event) : bool :=
  match ev with
  | ClickHeader col => negb (truthy (Column.sortable col))
  | _ => false
  end.

Definition is_OnSort (c : Invocation) : Prop :=
  match c with
  | OnSort _ _ => True
  | _ => False
  end.

Definition is_OnRowSelect (c : Invocation) : Prop :=
  match c with
  | OnRowSelect _ => True
  | _ => False
  end.

Definition head_of (v : View) : list HeaderCell :=
  match v with
  | TableView _ head _ => head
  | _ => []
  end.

Definition body_of (v : View) : list BodyRow :=
  match v with
  | TableView _ _ body => body
  | _ => []
  end.

Definition selectAll_of (v : View) : option bool :=
  match v with
  | TableView selectAll _ _ => selectAll
  | _ => None
  end.

End DataTable.

(** ** InputField *)

Module InputField.

(** [InputFieldProps]; [variant], [size], [maxLength] and [className] only
    reach the markup and are left out.  [ref] tells whether the caller
    forwards a ref to the input element. *)
Record Props := {
  value : option string;
  defaultValue : option string;
  onChange : Callback;
  onClear : Callback;
  onEnter : Callback;
  label : option string;
  placeholder : option string;
  helperText : option string;
  errorMessage : option string;
  disabled : option bool;
  invalid : option bool;
  loading : option bool;
  type : option string;
  showClearButton : option bool;
  showPasswordToggle : option bool;
  ref : bool
}.

Definition disabled_ (p : Props) : bool := nullish_or (disabled p) false.
Definition invalid_ (p : Props) : bool := nullish_or (invalid p) false.
Definition loading_ (p : Props) : bool := nullish_or (loading p) false.
Definition type_ (p : Props) : string := nullish_or (type p) "text".
Definition showClearButton_ (p : Props) : bool := nullish_or (showClearButton p) false.
Definition showPasswordToggle_ (p : Props) : bool :=
  nullish_or (showPasswordToggle p) false.

Record State := {
  internalValue : string;
  showPassword : bool
}.

Global Instance State_eq_dec : EqDecision State.
Proof. solve_decision. Defined.

Definition isControlled (p : Props) : bool := bool_decide (value p ≠ None).

(** The initial values of the two [useState] cells. *)
Definition useState (p : Props) : State :=
  {| internalValue := nullish_or (defaultValue p) (nullish_or (value p) "");
     showPassword := false |}.

(** The body of the effect, and the dependencies that trigger it. *)
Definition useEffect (p : Props) (s : State) : State :=
  if isControlled p
  then {| internalValue := nullish_or (value p) ""; showPassword := showPassword s |}
  else s.

Definition deps (p : Props) : option string * bool := (value p, isControlled p).

Inductive Invocation :=
  | OnChange (v : string)
  | OnClear
  | OnEnter
  | Focus.

Definition handleChange (p : Props) (s : State) (v : string) : State * list Invocation :=
  (if negb (isControlled p)
   then {| internalValue := v; showPassword := showPassword s |}
   else s,
   call (onChange p) (OnChange v)).

Definition handleClear (p : Props) (s : State) : State * list Invocation :=
  (if negb (isControlled p)
   then {| internalValue := ""; showPassword := showPassword s |}
   else s,
   call (onChange p) (OnChange "") ++ call (onClear p) OnClear
     ++ (if ref p then [Focus] else [])).

Definition handleKeyDown (p : Props) (s : State) (k : string) : State * list Invocation :=
  (s, if bool_decide (k = "Enter") then call (onEnter p) OnEnter else []).

Definition togglePassword (s : State) : State :=
  {| internalValue := internalValue s; showPassword := negb (showPassword s) |}.

(** *** Rendering *)

Record Hint := {
  hint_text : option string;
  hint_assertive : bool
}.

Record View := {
  view_label : option string;
  input_type : string;
  input_value : string;
  input_disabled : bool;
  aria_invalid : bool;
  spinner : bool;
  clearButton : bool;
  passwordToggle : option bool;
  hint : option Hint
}.

Definition InputField (p : Props) (s : State) : View :=
  {| view_label := if truthy_str (label p) then label p else None;
     input_type :=
       if showPasswordToggle_ p && showPassword s then "text" else type_ p;
     input_value := internalValue s;
     input_disabled := disabled_ p || loading_ p;
     aria_invalid := invalid_ p;
     spinner := loading_ p;
     clearButton :=
       showClearButton_ p && negb (bool_decide (internalValue s = ""))
         && negb (loading_ p) && negb (disabled_ p);
     passwordToggle :=
       if showPasswordToggle_ p && bool_decide (type_ p = "password")
            && negb (loading_ p)
       then Some (showPassword s) else None;
     hint :=
       if truthy_str (helperText p) || truthy_str (errorMessage p)
       then Some {| hint_text := if invalid_ p then errorMessage p else helperText p;
                    hint_assertive := invalid_ p |}
       else None |}.

(** *** Life cycle

    A mounted instance holds its current props and state.  Every render is
    committed as a frame; the effect runs after the first render and after a
    render whose dependencies differ from those of the previous one, and a
    state change made by the effect or by a handler causes one more
    render. *)

Record Instance := {
  props : Props;
  state : State
}.

Inductive Event :=
  | Change (v : string)
  | ClickClear
  | KeyDown (k : string)
  | ClickPasswordToggle
  | Rerender (p : Props).

Definition frames_after (p : Props) (before after : State) : list View :=
  if decide (after = before) then [] else [InputField p after].

Definition mount (p : Props) : Instance * list View :=
  let s0 := useState p in
  let s1 := useEffect p s0 in
  ({| props := p; state := s1 |}, InputField p s0 :: frames_after p s0 s1).

Definition step (i : Instance) (ev : Event) : Instance * list View * list Invocation :=
  let p := props i in
  let s := state i in
  match ev with
  | Change v =>
      let '(s', c) := handleChange p s v in
      ({| props := p; state := s' |}, frames_after p s s', c)
  | ClickClear =>
      let '(s', c) := handleClear p s in
      ({| props := p; state := s' |}, frames_after p s s', c)
  | KeyDown k =>
      let '(s', c) := handleKeyDown p s k in
      ({| props := p; state := s' |}, frames_after p s s', c)
  | ClickPasswordToggle =>
      let s' := togglePassword s in
      ({| props := p; state := s' |}, frames_after p s s', [])
  | Rerender p' =>
      let s' := if decide (deps p' = deps p) then s else useEffect p' s in
      ({| props := p'; state := s' |}, InputField p' s :: frames_after p' s s', [])
  end.

(** A sequence of events: the final instance and every frame committed on
    the way, in order. *)
Fixpoint run (i : Instance) (evs : list Event) : Instance * list View :=
  match evs with
  | [] => (i, [])
  | ev :: evs' =>
      let '(i1, f1, _) := step i ev in
      let '(i2, f2) := run i1 evs' in
      (i2, f1 ++ f2)
  end.

(** What the instance shows once rendering has settled. *)
Definition shown (i : Instance) : View := InputField (props i) (state i).

Definition controlled_event (ev : Event) : bool :=
  match ev with
  | Rerender p => isControlled p
  | _ => true
  end.

Definition user_event (ev : Event) : bool :=
  match ev with
  | Rerender _ => false
  | _ => true
  end.

(** The state mirrors the value that the caller supplies. *)
Definition mirrors (i : Instance) : Prop :=
  value (props i) = Some (internalValue (state i)).

(** Whenever the current props supply a value, the state holds it. *)
Definition holds_value (i : Instance) : Prop :=
  ∀ v, value (props i) = Some v → internalValue (state i) = v.

(** An event of a field that is left uncontrolled: a user event, or an
    update that supplies no value. *)
Definition uncontrolled_event (ev : Event) : bool :=
  match ev with
  | Rerender p => negb (isControlled p)
  | _ => true
  end.

(** The text that an event asks for, if it edits the text. *)
Definition edit_of (ev : Event) : option string :=
  match ev with
  | Change v => Some v
  | ClickClear => Some ""
  | _ => None
  end.

Definition last_edit (evs : list Event) : option string := last (omap edit_of evs).

End InputField.

(** ** App: the demo screen *)

(** [s.includes(q)] on strings: [q] occurs in [s] as a substring. *)
Fixpoint String_includes (s q : string) : bool :=
  if String.prefix q s then true
  else match s with
       | EmptyString => false
       | String _ s' => String_includes s' q
       end.

Module App.

Record User := {
  id : Z;
  name : string;
  email : string;
  role : string
}.

Definition initialData : list User :=
  [ {| id := 1; name := "Shivam Kumar"; email := "shivamkumar23302@gmail.com";
       role := "Admin" |};
    {| id := 2; name := "Shashank"; email := "shashank1234@gmail.com";
       role := "User" |};
    {| id := 3; name := "Lohia"; email := "lohia1234@gmail.com"; role := "Admin" |} ].

(** A user as the generic record that the table reads. *)
Definition toRow (u : User) : Row :=
  {[ "id" := JNumber (id u); "name" := JString (name u);
     "email" := JString (email u); "role" := JString (role u) ]}.

Definition textColumn (k title : string) : Column.t :=
  {| Column.key := k; Column.title := title; Column.dataIndex := k;
     Column.sortable := Some true; Column.render := None |}.

Definition columns : list Column.t :=
  [textColumn "name" "Name"; textColumn "email" "Email"; textColumn "role" "Role"].

(** The six [useState] cells. *)
Record State := {
  query : string;
  appliedQuery : string;
  selectedRows : list Row;
  darkMode : bool;
  isLoading : bool;
  showEmptyState : bool
}.

Definition useState : State :=
  {| query := ""; appliedQuery := ""; selectedRows := []; darkMode := false;
     isLoading := false; showEmptyState := false |}.

(** The screen with what lies outside the state: the timers that
    [window.setTimeout] has pending, each with the query it will apply, and
    the [dark] class of the document element. *)
Record Page := {
  state : State;
  timers : list string;
  darkClass : bool
}.

Definition setQuery (s : State) (v : string) : State :=
  {| query := v; appliedQuery := appliedQuery s; selectedRows := selectedRows s;
     darkMode := darkMode s; isLoading := isLoading s;
     showEmptyState := showEmptyState s |}.

Definition setSelectedRows (s : State) (rows : list Row) : State :=
  {| query := query s; appliedQuery := appliedQuery s; selectedRows := rows;
     darkMode := darkMode s; isLoading := isLoading s;
     showEmptyState := showEmptyState s |}.

Definition toggleEmptyState (s : State) : State :=
  {| query := query s; appliedQuery := appliedQuery s; selectedRows := selectedRows s;
     darkMode := darkMode s; isLoading := isLoading s;
     showEmptyState := negb (showEmptyState s) |}.

Definition handleSearch (pg : Page) (term : option string) : Page :=
  let s := state pg in
  if isLoading s then pg
  else
    let q := nullish_or term (query s) in
    {| state :=
         {| query := query s; appliedQuery := appliedQuery s;
            selectedRows := selectedRows s; darkMode := darkMode s;
            isLoading := true; showEmptyState := showEmptyState s |};
       timers := timers pg ++ [q];
       darkClass := darkClass pg |}.

(** The callback of the oldest pending timer runs. *)
Definition timeout (pg : Page) : Page :=
  let s := state pg in
  match timers pg with
  | [] => pg
  | q :: rest =>
      {| state :=
           {| query := query s; appliedQuery := q;
              selectedRows := selectedRows s; darkMode := darkMode s;
              isLoading := false; showEmptyState := showEmptyState s |};
         timers := rest;
         darkClass := darkClass pg |}
  end.

Definition resetSearch (pg : Page) : Page :=
  let s := state pg in
  if isLoading s then pg
  else
    {| state :=
         {| query := ""; appliedQuery := "";
            selectedRows := selectedRows s; darkMode := darkMode s;
            isLoading := isLoading s; showEmptyState := showEmptyState s |};
       timers := timers pg;
       darkClass := darkClass pg |}.

Definition toggleDarkMode (pg : Page) : Page :=
  let s := state pg in
  {| state :=
       {| query := query s; appliedQuery := appliedQuery s;
          selectedRows := selectedRows s; darkMode := negb (darkMode s);
          isLoading := isLoading s; showEmptyState := showEmptyState s |};
     timers := timers pg;
     darkClass := negb (darkClass pg) |}.

Section Filter.
(** [String.prototype.toLowerCase] and [trim] belong to the host. *)
Variables toLowerCase trim : string → string.

Definition matches (q : string) (u : User) : bool :=
  String_includes (toLowerCase (name u)) q
  || String_includes (toLowerCase (email u)) q
  || String_includes (toLowerCase (role u)) q.

Definition filtered (s : State) : list User :=
  let q :=
    toLowerCase
      (trim (if bool_decide (appliedQuery s = "") then query s else appliedQuery s)) in
  if bool_decide (q = "") then initialData
  else filter (λ u, matches q u) initialData.

(** The props that the screen passes to the search field and to the table. *)
Definition searchField (s : State) : InputField.Props :=
  {| InputField.value := Some (query s);
     InputField.defaultValue := None;
     InputField.onChange := Supplied;
     InputField.onClear := Absent;
     InputField.onEnter := Supplied;
     InputField.label := Some "Search by name, email, or role";
     InputField.placeholder := Some "Type to search...";
     InputField.helperText := Some "Press Enter or click Search";
     InputField.errorMessage := None;
     InputField.disabled := None;
     InputField.invalid := None;
     InputField.loading := None;
     InputField.type := None;
     InputField.showClearButton := Some true;
     InputField.showPasswordToggle := None;
     InputField.ref := false |}.

Definition usersTable (s : State) : DataTable.Props :=
  {| DataTable.data := toRow <$> (if showEmptyState s then [] else filtered s);
     DataTable.columns := columns;
     DataTable.loading := Some (isLoading s);
     DataTable.selectable := Some true;
     DataTable.selectMode := Some DataTable.multiple;
     DataTable.selectedRowKeys := None;
     DataTable.rowKey := None;
     DataTable.onRowSelect := Supplied;
     DataTable.onSort := Absent |}.
End Filter.

(** What the screen does with the calls of the search field and of the
    table. *)
Definition onField (pg : Page) (c : InputField.Invocation) : Page :=
  match c with
  | InputField.OnChange v =>
      {| state := setQuery (state pg) v; timers := timers pg;
         darkClass := darkClass pg |}
  | InputField.OnEnter => handleSearch pg None
  | _ => pg
  end.

Definition onTable (pg : Page) (c : DataTable.Invocation) : Page :=
  match c with
  | DataTable.OnRowSelect rows =>
      {| state := setSelectedRows (state pg) rows; timers := timers pg;
         darkClass := darkClass pg |}
  | _ => pg
  end.

(** The handlers of the screen as events; each call of a handler sees the
    state that the previous one left. *)
Inductive Event :=
  | Search (term : option string)
  | Reset
  | Timeout
  | ToggleDark
  | ToggleEmpty
  | Field (c : InputField.Invocation)
  | Table (c : DataTable.Invocation).

Definition step (pg : Page) (ev : Event) : Page :=
  match ev with
  | Search term => handleSearch pg term
  | Reset => resetSearch pg
  | Timeout => timeout pg
  | ToggleDark => toggleDarkMode pg
  | ToggleEmpty =>
      {| state := toggleEmptyState (state pg); timers := timers pg;
         darkClass := darkClass pg |}
  | Field c => onField pg c
  | Table c => onTable pg c
  end.

Definition run (pg : Page) (evs : list Event) : Page := foldl step pg evs.

(** No timer is pending unless a search is loading, and then exactly one. *)
Definition one_search (pg : Page) : Prop :=
  if isLoading (state pg) then length (timers pg) = 1%nat else timers pg = [].

(** The screen at creation, in a document that has the [dark] class or not. *)
Definition mount (dark : bool) : Page :=
  {| state := useState; timers := []; darkClass := dark |}.

End App.

(** ** Sample data

    Concrete props for the examples.  The examples run with the order of the
    character codes in the place of the host collation. *)

Definition codeCompare (a b : string) : Z :=
  match String.compare a b with
  | Lt => -1
  | Eq => 0
  | Gt => 1
  end.

Definition person (id : Z) (age : JsValue) : Row :=
  {[ "id" := JNumber id; "age" := age ]}.

Definition user (id : Z) (name : string) : Row :=
  {[ "id" := JNumber id; "name" := JString name ]}.

Definition people : list Row :=
  [person 1 JNull; person 2 (JNumber 3); person 3 (JNumber 1);
   person 4 JNull; person 5 (JNumber 2)].

Definition users : list Row :=
  [user 1 "Shivam Kumar"; user 2 "Shashank"; user 3 "Maurya"].

Definition adults : list Row :=
  [person 1 (JNumber 31); person 2 (JNumber 18); person 3 (JNumber 25)].

Definition nameColumn : Column.t :=
  {| Column.key := "name"; Column.title := "Name"; Column.dataIndex := "name";
     Column.sortable := Some true; Column.render := None |}.

Definition tableProps (rows : list Row) (mode : DataTable.SelectMode)
    (keys : option (list JsValue)) : DataTable.Props :=
  {| DataTable.data := rows;
     DataTable.columns := [nameColumn];
     DataTable.loading := None;
     DataTable.selectable := Some true;
     DataTable.selectMode := Some mode;
     DataTable.selectedRowKeys := keys;
     DataTable.rowKey := None;
     DataTable.onRowSelect := Supplied;
     DataTable.onSort := Supplied |}.

Definition fieldProps (value defaultValue helperText errorMessage : option string)
    (invalid : option bool) : InputField.Props :=
  {| InputField.value := value;
     InputField.defaultValue := defaultValue;
     InputField.onChange := Supplied;
     InputField.onClear := Absent;
     InputField.onEnter := Absent;
     InputField.label := None;
     InputField.placeholder := None;
     InputField.helperText := helperText;
     InputField.errorMessage := errorMessage;
     InputField.disabled := None;
     InputField.invalid := invalid;
     InputField.loading := None;
     InputField.type := None;
     InputField.showClearButton := None;
     InputField.showPasswordToggle := None;
     InputField.ref := false |}.

(** Stand-ins for [toLowerCase] and [trim] to run the examples with: the
    lower case of the letters A to Z, and the removal of spaces at both ends. *)
Definition lowerChar (c : Ascii.ascii) : Ascii.ascii :=
  if (65 <=? Ascii.nat_of_ascii c)%nat && (Ascii.nat_of_ascii c <=? 90)%nat
  then Ascii.ascii_of_nat (Ascii.nat_of_ascii c + 32) else c.

Fixpoint asciiLower (s : string) : string :=
  match s with
  | EmptyString => EmptyString
  | String c s' => String (lowerChar c) (asciiLower s')
  end.

Fixpoint trimStart (s : string) : string :=
  match s with
  | String c s' => if Ascii.eqb c Ascii.Space then trimStart s' else s
  | EmptyString => s
  end.

Definition trimSpaces (s : string) : string :=
  String.rev (trimStart (String.rev (trimStart s))).

(** * Properties *)

(** ** The sort *)

Section ArraySortFacts.
Context {A : Type} (comparefn : A → A → Z).

Lemma sort_insert_perm x l : sort_insert comparefn x l ≡ₚ x :: l.
Proof.
  induction l as [|y l IH]; simpl; [done|].
  destruct (0 <? comparefn x y); [|done].
  rewrite IH. apply Permutation_swap.
Qed.

Lemma Array_sort_perm l : Array_sort comparefn l ≡ₚ l.
Proof.
  induction l as [|x l IH]; simpl; [done|].
  by rewrite sort_insert_perm, IH.
Qed.

Lemma Array_sort_elem_of x l : x ∈ Array_sort comparefn l ↔ x ∈ l.
Proof. by rewrite Array_sort_perm. Qed.

(** Nothing moves when no element has to follow a later one. *)
Lemma Array_sort_id l :
  (∀ a b, a ∈ l → b ∈ l → comparefn a b ≤ 0) → Array_sort comparefn l = l.
Proof.
  induction l as [|x l IH]; intros Hle; simpl; [done|].
  rewrite IH by (intros; apply Hle; by constructor).
  destruct l as [|y l]; simpl; [done|].
  assert (comparefn x y ≤ 0) as Hxy
    by (apply Hle; [left | right; left]).
  by destruct (Z.ltb_spec 0 (comparefn x y)); [lia|].
Qed.

Section Consistent.
Variable L : list A.
Hypothesis consistent : ConsistentOn comparefn L.

Lemma consistent_gt_le a b :
  a ∈ L → b ∈ L → 0 < comparefn a b → cmp_le comparefn b a.
Proof.
  intros Ha Hb Hab. destruct consistent as [Hsgn _].
  specialize (Hsgn a b Ha Hb). unfold cmp_le. lia.
Qed.


Lemma consistent_refl a : a ∈ L → cmp_eq comparefn a a.
Proof.
  intros Ha. destruct consistent as [Hsgn _].
  specialize (Hsgn a a Ha Ha). unfold cmp_eq. lia.
Qed.

Lemma consistent_le_antisym a b :
  a ∈ L → b ∈ L → cmp_le comparefn a b → cmp_le comparefn b a →
  cmp_eq comparefn a b.
Proof.
  intros Ha Hb Hab Hba. destruct consistent as [Hsgn _].
  specialize (Hsgn a b Ha Hb). unfold cmp_eq, cmp_le in *. lia.
Qed.

Lemma consistent_trans a b c :
  a ∈ L → b ∈ L → c ∈ L →
  cmp_le comparefn a b → cmp_le comparefn b c → cmp_le comparefn a c.
Proof. destruct consistent as [_ Htr]. apply Htr. Qed.

Lemma sort_insert_sorted x l :
  x ∈ L → l ⊆ L →
  StronglySorted (cmp_le comparefn) l →
  StronglySorted (cmp_le comparefn) (sort_insert comparefn x l).
Proof.
  intros Hx Hl Hs. induction Hs as [|y l Hs IH Hy]; simpl.
  { repeat constructor. }
  assert (y ∈ L) as HyL by (apply Hl; left).
  assert (l ⊆ L) as HlL by (intros z Hz; apply Hl; by right).
  destruct (Z.ltb_spec 0 (comparefn x y)) as [Hgt|Hle].
  - constructor; [by apply IH|].
    rewrite sort_insert_perm. constructor; [|done].
    by apply consistent_gt_le.
  - constructor; [by constructor|].
    constructor; [done|].
    rewrite Forall_forall in Hy |- *. intros z Hz.
    apply (consistent_trans x y z); auto.
Qed.

Lemma Array_sort_sorted l :
  l ⊆ L → StronglySorted (cmp_le comparefn) (Array_sort comparefn l).
Proof.
  induction l as [|x l IH]; intros Hl; simpl; [constructor|].
  apply sort_insert_sorted.
  - apply Hl; left.
  - intros z Hz. apply Hl. right. by apply Array_sort_elem_of.
  - apply IH. intros z Hz. apply Hl. by right.
Qed.


End Consistent.
End ArraySortFacts.

(** On a consistent comparison function the stable sorted arrangement is
    unique, whatever algorithm produces it. *)
Lemma stable_sorted_unique {A} (comparefn : A → A → Z) (L l1 l2 : list A) :
  ConsistentOn comparefn L →
  l1 ⊆ L →
  l1 ≡ₚ l2 →
  StronglySorted (cmp_le comparefn) l1 →
  StronglySorted (cmp_le comparefn) l2 →
  (∀ w, w ∈ L → filter (cmp_eq comparefn w) l1 = filter (cmp_eq comparefn w) l2) →
  l1 = l2.
Proof.
  intros HL. revert l2.
  induction l1 as [|a l1 IH]; intros l2 Hsub Hperm Hs1 Hs2 Hst.
  { by apply Permutation_nil in Hperm. }
  destruct l2 as [|b l2].
  { symmetry in Hperm. by apply Permutation_nil in Hperm. }
  assert (a ∈ L) as Ha by (apply Hsub; left).
  assert (b ∈ L) as Hb.
  { apply Hsub. rewrite Hperm. left. }
  apply StronglySorted_cons in Hs1 as [Ha1 Hs1].
  apply StronglySorted_cons in Hs2 as [Hb2 Hs2].
  assert (a = b) as ->.
  { destruct (decide (cmp_eq comparefn a b)) as [Hab|Hab].
    - specialize (Hst a Ha). rewrite !filter_cons in Hst.
      destruct (decide (cmp_eq comparefn a a)) as [|Hn];
        [|destruct Hn; by eapply consistent_refl].
      destruct (decide (cmp_eq comparefn a b)); [|done].
      by injection Hst.
    - assert (a ∈ b :: l2) as Ha2 by (rewrite <- Hperm; left).
      assert (b ∈ a :: l1) as Hb1 by (rewrite Hperm; left).
      apply elem_of_cons in Ha2 as [|Ha2]; [done|].
      apply elem_of_cons in Hb1 as [|Hb1]; [done|].
      rewrite Forall_forall in Ha1, Hb2.
      destruct Hab. eapply consistent_le_antisym; eauto. }
  f_equal. apply IH; auto.
  - intros z Hz. apply Hsub. by right.
  - by apply Permutation_cons_inv in Hperm.
  - intros w Hw. specialize (Hst w Hw). rewrite !filter_cons in Hst.
    destruct (decide (cmp_eq comparefn w b)); [by injection Hst|done].
Qed.

(** ** The comparison function of [sortedData] *)

Section ComparatorFacts.
Variable localeCompare : string → string → Z.

Lemma compareRows_consistent_numeric k d data :
  (∀ r, r ∈ data → numeric_or_nullish (get r k)) →
  ConsistentOn (compareRows localeCompare k d) data.
Proof.
  intros Hnum. split.
  - intros a b Ha%Hnum Hb%Hnum. unfold compareRows.
    destruct (get a k), (get b k), d; simpl in *; try done; lia.
  - intros a b c Ha%Hnum Hb%Hnum Hc%Hnum. unfold cmp_le, compareRows.
    destruct (get a k), (get b k), (get c k), d; simpl in *; try done; lia.
Qed.

Lemma compareRows_consistent_text k d data :
  (∀ s t, Z.sgn (localeCompare t s) = - Z.sgn (localeCompare s t)) →
  (∀ s t u, localeCompare s t ≤ 0 → localeCompare t u ≤ 0 → localeCompare s u ≤ 0) →
  (∀ r, r ∈ data → not_a_number (get r k)) →
  ConsistentOn (compareRows localeCompare k d) data.
Proof.
  intros Hsgn Htr Htext. split.
  - intros a b Ha%Htext Hb%Htext. unfold compareRows.
    destruct (get a k) eqn:Ea, (get b k) eqn:Eb, d;
      simpl in *; try done; try lia; apply Hsgn.
  - intros a b c Ha%Htext Hb%Htext Hc%Htext. unfold cmp_le, compareRows.
    destruct (get a k) eqn:Ea, (get b k) eqn:Eb, (get c k) eqn:Ec, d;
      simpl in *; try done; try lia; eauto.
Qed.
End ComparatorFacts.

(** ** DataTable: sorting *)

Section SortingFacts.
Import DataTable.

Lemma toggleSort_unsorted p s k :
  sortConfig s = None →
  toggleSort p s k (Some true)
  = ({| sortConfig := Some {| key := k; direction := asc |};
        internalSelectedKeys := internalSelectedKeys s |},
     call (onSort p) (OnSort k (Some asc))).
Proof. intros Hs. unfold toggleSort. rewrite Hs. simpl. try case_decide; done. Qed.

Lemma toggleSort_same p s k d :
  sortConfig s = Some {| key := k; direction := d |} →
  toggleSort p s k (Some true)
  = match d with
    | asc =>
        ({| sortConfig := Some {| key := k; direction := desc |};
            internalSelectedKeys := internalSelectedKeys s |},
         call (onSort p) (OnSort k (Some desc)))
    | desc =>
        ({| sortConfig := None; internalSelectedKeys := internalSelectedKeys s |},
         call (onSort p) (OnSort k None))
    end.
Proof.
  intros Hs. unfold toggleSort. rewrite Hs. simpl.
  case_decide; [|done]. by destruct d.
Qed.

Lemma toggleSort_other p s k sc :
  sortConfig s = Some sc → key sc ≠ k →
  toggleSort p s k (Some true)
  = ({| sortConfig := Some {| key := k; direction := asc |};
        internalSelectedKeys := internalSelectedKeys s |},
     call (onSort p) (OnSort k (Some asc))).
Proof.
  intros Hs Hne. unfold toggleSort. rewrite Hs. simpl.
  case_decide; [|done]. congruence.
Qed.

(** A column that is not sortable changes nothing and notifies nobody. *)
Lemma toggleSort_not_sortable p s k sortable :
  truthy sortable = false → toggleSort p s k sortable = (s, []).
Proof. intros Hs. unfold toggleSort. by rewrite Hs. Qed.
End SortingFacts.

(** C1.  Clicking the header of a sortable column, starting from no sort,
    gives ascending, then descending, then no sort, then ascending again, each
    time on that column's key; clicking it while another column is sorted gives
    ascending on the clicked column; and every one of these clicks makes one
    call to [onSort] (when the caller supplies it), with the column's key and
    the new direction, or with no direction when the sort is removed. *)
Theorem toggleSort_cycle (p : DataTable.Props) (col : Column.t) (s0 : DataTable.State) :
  Column.sortable col = Some true →
  DataTable.sortConfig s0 = None →
  let k := Column.key col in
  let click s := DataTable.handle p s (DataTable.ClickHeader col) in
  let notified d := call (DataTable.onSort p) (DataTable.OnSort k d) in
  let r1 := click s0 in
  let r2 := click r1.1 in
  let r3 := click r2.1 in
  let r4 := click r3.1 in
  (DataTable.sortConfig r1.1 = Some {| key := k; direction := asc |}
   ∧ r1.2 = notified (Some asc)) ∧
  (DataTable.sortConfig r2.1 = Some {| key := k; direction := desc |}
   ∧ r2.2 = notified (Some desc)) ∧
  (DataTable.sortConfig r3.1 = None ∧ r3.2 = notified None) ∧
  (DataTable.sortConfig r4.1 = Some {| key := k; direction := asc |}
   ∧ r4.2 = notified (Some asc)) ∧
  (∀ s sc, DataTable.sortConfig s = Some sc → key sc ≠ k →
     DataTable.sortConfig (click s).1 = Some {| key := k; direction := asc |}
     ∧ (click s).2 = notified (Some asc)) ∧
  (DataTable.onSort p = Supplied → ∀ d, length (notified d) = 1%nat).
Proof.
  intros Hsortable Hs0 k click notified. cbv zeta.
  unfold click, DataTable.handle. rewrite Hsortable. fold k.
  rewrite (toggleSort_unsorted p s0 k Hs0). cbn [fst snd].
  erewrite (toggleSort_same p _ k asc) by reflexivity. cbn [fst snd].
  erewrite (toggleSort_same p _ k desc) by reflexivity. cbn [fst snd].
  erewrite (toggleSort_unsorted p _ k) by reflexivity. cbn [fst snd].
  cbn [DataTable.sortConfig].
  repeat split; try done.
  - by rewrite (toggleSort_other p s k sc).
  - by rewrite (toggleSort_other p s k sc).
  - intros Hsup d. unfold notified. by rewrite Hsup.
Qed.

Lemma toggleSort_cycle_witness :
  let p := tableProps users DataTable.multiple None in
  let click s := DataTable.handle p s (DataTable.ClickHeader nameColumn) in
  (click DataTable.useState).2 = [DataTable.OnSort "name" (Some asc)]
  ∧ DataTable.sortConfig (click (click (click DataTable.useState).1).1).1 = None.
Proof.
  pose proof (toggleSort_cycle (tableProps users DataTable.multiple None)
                nameColumn DataTable.useState eq_refl eq_refl) as H.
  simpl in H. destruct H as ((_ & H1) & _ & (H3 & _) & _).
  split; [exact H1 | exact H3].
Defined.

(** C9.  When the field named by the sort key is undefined on every row, the
    rows are displayed in the order of the data. *)
Theorem sortedData_missing_key (localeCompare : string → string → Z)
    (data : list Row) (k : string) (d : Direction) :
  (∀ r, r ∈ data → get r k = JUndefined) →
  sortedData localeCompare data (Some {| key := k; direction := d |}) = data.
Proof.
  intros Hundef. simpl. apply Array_sort_id.
  intros a b Ha Hb. unfold compareRows.
  by rewrite (Hundef a Ha), (Hundef b Hb).
Qed.

Lemma sortedData_missing_key_witness :
  sortedData codeCompare users (Some {| key := "email"; direction := desc |}) = users.
Proof.
  apply (sortedData_missing_key codeCompare users "email" desc).
  intros r Hr. unfold users in Hr.
  repeat (apply elem_of_cons in Hr as [->|Hr]; [reflexivity|]).
  by apply elem_of_nil in Hr.
Defined.

(** ** DataTable: selection *)

Section SelectionFacts.
Import DataTable.

Lemma includes_true keys k : includes keys k = true ↔ k ∈ keys.
Proof. unfold includes. by rewrite bool_decide_eq_true. Qed.

Lemma includes_false keys k : includes keys k = false ↔ k ∉ keys.
Proof. unfold includes. by rewrite bool_decide_eq_false. Qed.

Lemma updateSelection_uncontrolled p s keys :
  selectedRowKeys p = None →
  internalSelectedKeys (updateSelection p s keys).1 = keys.
Proof. intros Hu. unfold updateSelection. by rewrite Hu. Qed.

Lemma updateSelection_sortConfig p s keys :
  sortConfig (updateSelection p s keys).1 = sortConfig s.
Proof. unfold updateSelection. by destruct (selectedRowKeys p). Qed.

(** The selection that a click on a row asks for. *)
Lemma toggleRow_single p s row :
  selectable_ p = true → selectMode_ p = single →
  toggleRow p s row
  = updateSelection p s
      (if includes (selectedKeys p s) (get row (rowKey_ p)) then []
       else [get row (rowKey_ p)]).
Proof. intros Hs Hm. unfold toggleRow. by rewrite Hs, Hm. Qed.

Lemma toggleRow_multiple p s row :
  selectable_ p = true → selectMode_ p = multiple →
  toggleRow p s row
  = updateSelection p s
      (if includes (selectedKeys p s) (get row (rowKey_ p))
       then filter (λ k', k' ≠ get row (rowKey_ p)) (selectedKeys p s)
       else selectedKeys p s ++ [get row (rowKey_ p)]).
Proof. intros Hs Hm. unfold toggleRow. by rewrite Hs, Hm. Qed.

(** In single mode a click on a row leaves at most one key selected. *)
Lemma toggleRow_single_at_most_one p s row :
  selectMode_ p = single → selectedRowKeys p = None →
  (length (internalSelectedKeys s) ≤ 1)%nat →
  (length (internalSelectedKeys (toggleRow p s row).1) ≤ 1)%nat.
Proof.
  intros Hm Hu Hlen. unfold toggleRow. rewrite Hm.
  destruct (selectable_ p); cbn [negb]; [|done].
  rewrite updateSelection_uncontrolled by done.
  destruct (includes _ _); simpl; lia.
Qed.

(** In single mode every interaction other than checking the header checkbox
    leaves at most one key selected, and so does any sequence of them. *)
Lemma handle_single_at_most_one p s ev :
  selectMode_ p = single → selectedRowKeys p = None →
  checks_all ev = false →
  (length (internalSelectedKeys s) ≤ 1)%nat →
  (length (internalSelectedKeys (handle p s ev).1) ≤ 1)%nat.
Proof.
  intros Hm Hu Hev Hlen. destruct ev as [col|row|row|[|]]; simpl; try done.
  - unfold toggleSort. by destruct (negb _).
  - by apply toggleRow_single_at_most_one.
  - by apply toggleRow_single_at_most_one.
  - unfold handleSelectAll. destruct (negb _); [done|].
    rewrite updateSelection_uncontrolled by done. simpl. lia.
Qed.

Lemma run_single_at_most_one p s evs :
  selectMode_ p = single → selectedRowKeys p = None →
  forallb (λ ev, negb (checks_all ev)) evs = true →
  (length (internalSelectedKeys s) ≤ 1)%nat →
  (length (internalSelectedKeys (run p s evs).1) ≤ 1)%nat.
Proof.
  intros Hm Hu. revert s.
  induction evs as [|ev evs IH]; intros s Hevs Hlen; simpl; [done|].
  simpl in Hevs. apply andb_prop in Hevs as [Hev%negb_true_iff Hevs].
  pose proof (handle_single_at_most_one p s ev Hm Hu Hev Hlen) as H1.
  destruct (handle p s ev) as [s1 c1]. simpl in H1.
  specialize (IH s1 Hevs H1).
  by destruct (run p s1 evs) as [s2 c2].
Qed.

(** Checking the header checkbox selects the key of every row of the data,
    whatever the selection mode. *)
Lemma handleSelectAll_checked p s :
  selectable_ p = true → selectedRowKeys p = None →
  internalSelectedKeys (handleSelectAll p s true).1
  = (λ r, get r (rowKey_ p)) <$> data p.
Proof.
  intros Hs Hu. unfold handleSelectAll. rewrite Hs. cbn [negb].
  by rewrite updateSelection_uncontrolled.
Qed.
End SelectionFacts.

(** C3.  With the selection owned by the table, and rows [A] and [B] whose
    identity keys differ: in single mode, selecting [A] then [B] leaves exactly
    the key of [B] selected and selecting [A] twice leaves nothing selected; in
    multiple mode, selecting [A], then [B], then [A] again leaves exactly the
    key of [B] selected. *)
Theorem toggleRow_sequences (p : DataTable.Props) (A B : Row) :
  DataTable.selectable p = Some true →
  DataTable.selectedRowKeys p = None →
  get A (DataTable.rowKey_ p) ≠ get B (DataTable.rowKey_ p) →
  let select s row := (DataTable.toggleRow p s row).1 in
  let s0 := DataTable.useState in
  (DataTable.selectMode_ p = DataTable.single →
     DataTable.internalSelectedKeys (select (select s0 A) B)
     = [get B (DataTable.rowKey_ p)]
     ∧ DataTable.internalSelectedKeys (select (select s0 A) A) = []) ∧
  (DataTable.selectMode_ p = DataTable.multiple →
     DataTable.internalSelectedKeys (select (select (select s0 A) B) A)
     = [get B (DataTable.rowKey_ p)]).
Proof.
  intros Hsel Hu Hne select s0.
  assert (DataTable.selectable_ p = true) as Hs
    by (unfold DataTable.selectable_; by rewrite Hsel).
  assert (∀ s, DataTable.selectedKeys p s = DataTable.internalSelectedKeys s) as Hkeys
    by (intros s; unfold DataTable.selectedKeys; by rewrite Hu).
  set (a := get A (DataTable.rowKey_ p)) in *.
  set (b := get B (DataTable.rowKey_ p)) in *.
  split; intros Hm; unfold select.
  - assert (DataTable.internalSelectedKeys (DataTable.toggleRow p s0 A).1 = [a]) as H1.
    { rewrite toggleRow_single, updateSelection_uncontrolled by done. by rewrite Hkeys. }
    split.
    + rewrite toggleRow_single, updateSelection_uncontrolled by done.
      rewrite Hkeys, H1. fold b.
      replace (includes [a] b) with false; [done|].
      symmetry. apply includes_false. by intros ->%list_elem_of_singleton.
    + rewrite toggleRow_single, updateSelection_uncontrolled by done.
      rewrite Hkeys, H1. fold a.
      replace (includes [a] a) with true; [done|].
      symmetry. apply includes_true. by left.
  - assert (DataTable.internalSelectedKeys (DataTable.toggleRow p s0 A).1 = [a]) as H1.
    { rewrite toggleRow_multiple, updateSelection_uncontrolled by done. by rewrite Hkeys. }
    assert (DataTable.internalSelectedKeys
              (DataTable.toggleRow p (DataTable.toggleRow p s0 A).1 B).1 = [a; b]) as H2.
    { rewrite toggleRow_multiple, updateSelection_uncontrolled by done.
      rewrite Hkeys, H1. fold b.
      replace (includes [a] b) with false; [done|].
      symmetry. apply includes_false. by intros ->%list_elem_of_singleton. }
    rewrite toggleRow_multiple, updateSelection_uncontrolled by done.
    rewrite Hkeys, H2. fold a.
    replace (includes [a; b] a) with true
      by (symmetry; apply includes_true; by left).
    rewrite !filter_cons, filter_nil.
    destruct (decide (a ≠ a)); [done|].
    destruct (decide (b ≠ a)) as [|Hn]; [done|].
    exfalso. apply Hn. congruence.
Qed.

Lemma toggleRow_sequences_witness :
  let A := user 1 "Shivam Kumar" in
  let B := user 2 "Shashank" in
  let p := tableProps users DataTable.multiple None in
  let select s row := (DataTable.toggleRow p s row).1 in
  DataTable.internalSelectedKeys (select (select (select DataTable.useState A) B) A)
  = [JNumber 2].
Proof.
  refine (proj2 (toggleRow_sequences (tableProps users DataTable.multiple None)
                   (user 1 "Shivam Kumar") (user 2 "Shashank") eq_refl eq_refl _) eq_refl).
  vm_compute. congruence.
Defined.

(** Once the header checkbox is checked over two rows or more, more than one
    key is selected, in single mode as in multiple mode. *)
Lemma handleSelectAll_more_than_one (p : DataTable.Props) (s : DataTable.State) :
  DataTable.selectable_ p = true →
  DataTable.selectedRowKeys p = None →
  (2 ≤ length (DataTable.data p))%nat →
  (2 ≤ length (DataTable.internalSelectedKeys (DataTable.handleSelectAll p s true).1))%nat.
Proof.
  intros Hs Hu Hlen. rewrite handleSelectAll_checked by done.
  by rewrite length_fmap.
Qed.

(** C4.  The table is in single mode, owns its selection and shows three
    rows; it renders the header checkbox, and checking it selects the three
    keys: the selection then holds more than one key. *)
Theorem handleSelectAll_single_mode :
  let p := tableProps users DataTable.single None in
  let s0 := DataTable.useState in
  DataTable.selectMode_ p = DataTable.single ∧
  length (DataTable.internalSelectedKeys s0) = 0%nat ∧
  (∃ head body,
     DataTable.DataTable codeCompare p s0 = DataTable.TableView (Some false) head body) ∧
  DataTable.internalSelectedKeys
    (DataTable.handle p s0 (DataTable.ChangeSelectAll true)).1
  = [JNumber 1; JNumber 2; JNumber 3].
Proof. repeat split. by eexists _, _. Qed.

(** C5.  With rows 1 and 2 in the data and the keys 1 and 3 selected, the
    header checkbox is rendered checked although row 2 is not selected; with
    the keys 1, 2 and 3 selected it is rendered unchecked although both rows
    are selected.  The second case arises in a table that owns its selection
    when all of three rows are selected and the data then loses one. *)
Theorem allSelected_compares_lengths :
  let rows := [user 1 "Shivam Kumar"; user 2 "Shashank"] in
  let view keys :=
    DataTable.DataTable codeCompare
      (tableProps rows DataTable.multiple (Some keys)) DataTable.useState in
  let selected_all :=
    (DataTable.handleSelectAll (tableProps users DataTable.multiple None)
       DataTable.useState true).1 in
  (∃ head body,
     view [JNumber 1; JNumber 3] = DataTable.TableView (Some true) head body
     ∧ DataTable.isSelected <$> body = [true; false]) ∧
  (∃ head body,
     view [JNumber 1; JNumber 2; JNumber 3] = DataTable.TableView (Some false) head body
     ∧ DataTable.isSelected <$> body = [true; true]) ∧
  (∃ head body,
     DataTable.DataTable codeCompare (tableProps rows DataTable.multiple None) selected_all
     = DataTable.TableView (Some false) head body
     ∧ DataTable.isSelected <$> body = [true; true]).
Proof. split_and!; by eexists _, _. Qed.

(** C6.  The table renders the loading placeholder exactly when [loading] is
    set, whatever the data; the empty placeholder exactly when [loading] is not
    set and the data has no row; and the table itself exactly in the remaining
    case.  The three forms exclude one another. *)
Theorem DataTable_render_modes (localeCompare : string → string → Z)
    (p : DataTable.Props) (s : DataTable.State) :
  let view := DataTable.DataTable localeCompare p s in
  (view = DataTable.LoadingView ↔ DataTable.loading_ p = true) ∧
  (view = DataTable.EmptyView
   ↔ DataTable.loading_ p = false ∧ DataTable.data p = []) ∧
  ((∃ selectAll head body, view = DataTable.TableView selectAll head body)
   ↔ DataTable.loading_ p = false ∧ DataTable.data p ≠ []).
Proof.
  unfold DataTable.DataTable.
  destruct (DataTable.loading_ p), (DataTable.data p) as [|r rows]; simpl;
    split_and!; split;
    try done; try (by intros (? & ? & ? & ?)); try (by intros [? ?]);
    intros _; by eexists _, _, _.
Qed.

(** What a handler does with the selection it is asked for: it notifies the
    rows of the data that carry one of the keys, and stores the keys when the
    table owns the selection. *)
Lemma handle_nextSelection (p : DataTable.Props) (s : DataTable.State)
    (ev : DataTable.Event) :
  match DataTable.nextSelection p s ev with
  | Some keys => DataTable.handle p s ev = DataTable.updateSelection p s keys
  | None => ∀ rows, DataTable.OnRowSelect rows ∉ (DataTable.handle p s ev).2
  end.
Proof.
  unfold DataTable.nextSelection.
  destruct ev as [col|row|row|checked]; cbn [DataTable.handle];
    unfold DataTable.toggleSort, DataTable.toggleRow, DataTable.handleSelectAll.
  - assert (∀ rows, DataTable.OnRowSelect rows
                    ∉ (if negb (truthy (Column.sortable col)) then (s, [])
                       else DataTable.toggleSort p s (Column.key col) (Some true)).2)
      as Hsort.
    { intros rows. destruct (negb _); [by intros ?%elem_of_nil|].
      unfold DataTable.toggleSort. simpl.
      destruct (DataTable.onSort p); simpl; [by intros ?%elem_of_nil|].
      by intros ?%list_elem_of_singleton. }
    destruct (DataTable.selectable_ p); intros rows Hin; apply (Hsort rows);
      revert Hin; unfold DataTable.toggleSort; by destruct (negb _).
  - destruct (DataTable.selectable_ p); cbn [negb]; [|by intros ? ?%elem_of_nil].
    by destruct (DataTable.selectMode_ p).
  - destruct (DataTable.selectable_ p); cbn [negb]; [|by intros ? ?%elem_of_nil].
    by destruct (DataTable.selectMode_ p).
  - destruct (DataTable.selectable_ p); cbn [negb]; [|by intros ? ?%elem_of_nil].
    by destruct checked.
Qed.

(** C10.  Every call of [onRowSelect] passes the rows of the current data
    whose key is in the selection that the interaction asks for, which is
    computed from the keys currently selected, those of the caller when it
    supplies them, and which becomes the selection when the table owns it.
    The rows come in the order of the data, whatever the order of the keys;
    the key of each is among those keys; a key that no row of the data
    carries adds no row.  And every interaction that asks for a selection
    makes exactly this call when [onRowSelect] is supplied. *)
Theorem onRowSelect_rows (p : DataTable.Props) (s : DataTable.State)
    (ev : DataTable.Event) :
  let selected keys :=
    filter (λ r, get r (DataTable.rowKey_ p) ∈ keys) (DataTable.data p) in
  (∀ rows, DataTable.OnRowSelect rows ∈ (DataTable.handle p s ev).2 →
     ∃ keys,
       DataTable.nextSelection p s ev = Some keys ∧
       rows = selected keys ∧
       rows `sublist_of` DataTable.data p ∧
       (∀ r, r ∈ rows ↔ r ∈ DataTable.data p ∧ get r (DataTable.rowKey_ p) ∈ keys) ∧
       (∀ keys', keys' ≡ₚ keys → selected keys' = rows)) ∧
  (∀ keys, DataTable.nextSelection p s ev = Some keys →
     (DataTable.handle p s ev).2
     = call (DataTable.onRowSelect p) (DataTable.OnRowSelect (selected keys))
     ∧ (DataTable.selectedRowKeys p = None →
          DataTable.internalSelectedKeys (DataTable.handle p s ev).1 = keys)).
Proof.
  intros selected.
  assert (∀ keys,
    filter (λ r, includes keys (get r (DataTable.rowKey_ p))) (DataTable.data p)
    = selected keys) as Hfilter.
  { intros keys. apply list_filter_iff. intros r. unfold includes.
    by rewrite bool_decide_spec. }
  pose proof (handle_nextSelection p s ev) as Hnext.
  split.
  - intros rows Hin.
    destruct (DataTable.nextSelection p s ev) as [keys|]; [|by destruct (Hnext rows)].
    rewrite Hnext in Hin. exists keys.
    assert (rows = selected keys) as ->.
    { unfold DataTable.updateSelection in Hin. cbn [snd] in Hin.
      destruct (DataTable.onRowSelect p); simpl in Hin; [by apply elem_of_nil in Hin|].
      apply list_elem_of_singleton in Hin. injection Hin as ->. apply Hfilter. }
    split_and!; [done..| | |].
    + apply sublist_filter.
    + intros r. unfold selected. rewrite list_elem_of_filter. tauto.
    + intros keys' Hperm. apply list_filter_iff. intros r. by rewrite Hperm.
  - intros keys Hkeys. rewrite Hkeys in Hnext. rewrite Hnext. split.
    + unfold DataTable.updateSelection. cbn [snd]. by rewrite Hfilter.
    + intros Hu. by apply updateSelection_uncontrolled.
Qed.

Lemma onRowSelect_rows_witness :
  let p := tableProps users DataTable.multiple (Some [JNumber 3; JNumber 7]) in
  ∃ keys,
    [user 1 "Shivam Kumar"; user 3 "Maurya"]
    = filter (λ r, get r (DataTable.rowKey_ p) ∈ keys) (DataTable.data p)
    ∧ Some [JNumber 3; JNumber 7; JNumber 1] = Some keys.
Proof.
  intros p.
  destruct (proj1 (onRowSelect_rows p DataTable.useState
                     (DataTable.ClickRow (user 1 "Shivam Kumar")))
              [user 1 "Shivam Kumar"; user 3 "Maurya"])
    as (keys & Hkeys & Hrows & _).
  - vm_compute. left.
  - exists keys. split; [exact Hrows | exact Hkeys].
Defined.

(** ** InputField: the hint below the input *)

(** The paragraph exists when a helper text or an error message is given, and
    its text is chosen by [invalid] alone. *)
Lemma hint_text_shown (p : InputField.Props) (s : InputField.State) :
  truthy_str (InputField.helperText p) || truthy_str (InputField.errorMessage p) = true →
  InputField.hint_text <$> InputField.hint (InputField.InputField p s)
  = Some (if InputField.invalid_ p then InputField.errorMessage p
          else InputField.helperText p).
Proof. intros Hsome. simpl. by rewrite Hsome. Qed.

(** C8.  An invalid field with a helper text and no error message renders the
    paragraph of the hint without any text in it: the helper text is not
    shown. *)
Theorem hint_invalid_without_errorMessage :
  let p := fieldProps None None (Some "Help") None (Some true) in
  InputField.hint (InputField.InputField p (InputField.useState p))
  = Some {| InputField.hint_text := None; InputField.hint_assertive := true |}.
Proof. reflexivity. Qed.

(** ** InputField: the controlled value *)

Section ControlledFacts.
Import InputField.

Lemma isControlled_Some p x : value p = Some x → isControlled p = true.
Proof. intros Hv. unfold isControlled. rewrite Hv. by apply bool_decide_eq_true. Qed.

Lemma mount_mirrors p x : value p = Some x → mirrors (mount p).1.
Proof.
  intros Hv. unfold mirrors, mount, useEffect. simpl.
  rewrite (isControlled_Some p x Hv). simpl. by rewrite Hv.
Qed.

Lemma step_mirrors i ev :
  mirrors i → controlled_event ev = true → mirrors (step i ev).1.1.
Proof.
  unfold mirrors. intros Hi Hev.
  pose proof (isControlled_Some _ _ Hi) as Hc.
  destruct ev as [v| |k| |p']; simpl;
    unfold handleChange, handleClear; rewrite ?Hc; simpl; try done.
  simpl in Hev. case_decide as Hdeps.
  - injection Hdeps as Hv _. by rewrite Hv.
  - unfold useEffect. rewrite Hev. simpl.
    unfold isControlled in Hev. apply bool_decide_eq_true in Hev.
    by destruct (value p').
Qed.

Lemma run_mirrors i evs :
  mirrors i → forallb controlled_event evs = true → mirrors (run i evs).1.
Proof.
  revert i. induction evs as [|ev evs IH]; intros i Hi Hevs; simpl; [done|].
  simpl in Hevs. apply andb_prop in Hevs as [Hev Hevs].
  pose proof (step_mirrors i ev Hi Hev) as H1.
  destruct (step i ev) as [[i1 f1] c1]. simpl in H1.
  specialize (IH i1 H1 Hevs).
  by destruct (run i1 evs) as [i2 f2].
Qed.

(** A user event keeps the props, and in a controlled field the value too:
    every frame it commits shows the value shown before. *)
Lemma step_user_event i ev :
  isControlled (props i) = true → user_event ev = true →
  props (step i ev).1.1 = props i
  ∧ internalValue (state (step i ev).1.1) = internalValue (state i)
  ∧ Forall (λ f, input_value f = internalValue (state i)) (step i ev).1.2.
Proof.
  intros Hc Hev.
  destruct ev as [v| |k| |p']; simpl in *;
    unfold handleChange, handleClear; rewrite ?Hc; simpl; try done;
    split_and!; try done;
    unfold frames_after; case_decide; by repeat constructor.
Qed.

Lemma run_user_events i evs x :
  mirrors i → internalValue (state i) = x →
  forallb user_event evs = true →
  Forall (λ f, input_value f = x) (run i evs).2.
Proof.
  revert i. induction evs as [|ev evs IH]; intros i Hi Hx Hevs; simpl; [constructor|].
  simpl in Hevs. apply andb_prop in Hevs as [Hev Hevs].
  pose proof (isControlled_Some _ _ Hi) as Hc.
  destruct (step_user_event i ev Hc Hev) as (Hp & Hv & Hf).
  assert (mirrors (step i ev).1.1) as H1.
  { apply step_mirrors; [done|]. by destruct ev. }
  destruct (step i ev) as [[i1 f1] c1]. simpl in *.
  assert (Forall (λ f, input_value f = x) (run i1 evs).2) as H2.
  { apply IH; [done| |done]. by rewrite Hv. }
  destruct (run i1 evs) as [i2 f2]. simpl in *.
  apply Forall_app. split; [|done]. by rewrite <- Hx.
Qed.
End ControlledFacts.

(** C7, what fails.  A field created with the value "x" and the initial value
    "y" commits a first frame that shows "y", and then one that shows "x"; a
    field that shows "x" and receives the value "z" commits a frame that still
    shows "x" before the one that shows "z". *)
Lemma controlled_value_lags :
  InputField.input_value
    <$> (InputField.mount (fieldProps (Some "x") (Some "y") None None None)).2
  = ["y"; "x"] ∧
  InputField.input_value
    <$> (InputField.step (InputField.mount (fieldProps (Some "x") None None None None)).1
           (InputField.Rerender (fieldProps (Some "z") None None None None))).1.2
  = ["x"; "z"].
Proof. split; reflexivity. Qed.

(** C7, amended.  In a field that is controlled at creation and at every
    update, what is shown once the effect that follows the render has run is
    the value of the caller, after any sequence of keystrokes, other user
    events and updates; a user event never changes the value shown; and when
    the caller supplies "x" without an initial value and never updates it,
    every frame committed shows "x". *)
Theorem controlled_value_settled (p : InputField.Props) (x : string)
    (evs : list InputField.Event) :
  InputField.value p = Some x →
  forallb InputField.controlled_event evs = true →
  let r := InputField.run (InputField.mount p).1 evs in
  InputField.value (InputField.props r.1)
  = Some (InputField.input_value (InputField.shown r.1)) ∧
  (∀ i ev,
     InputField.isControlled (InputField.props i) = true →
     InputField.user_event ev = true →
     InputField.input_value (InputField.shown (InputField.step i ev).1.1)
     = InputField.input_value (InputField.shown i)) ∧
  (InputField.defaultValue p = None →
   forallb InputField.user_event evs = true →
   Forall (λ f, InputField.input_value f = x) ((InputField.mount p).2 ++ r.2)).
Proof.
  intros Hv Hevs r. split_and!.
  - apply (run_mirrors _ evs (mount_mirrors p x Hv) Hevs).
  - intros i ev Hc Hev. by destruct (step_user_event i ev Hc Hev) as (_ & ? & _).
  - intros Hd Huser.
    pose proof (mount_mirrors p x Hv) as Hm.
    assert (InputField.internalValue (InputField.state (InputField.mount p).1) = x) as Hx.
    { unfold InputField.mount, InputField.useEffect. simpl.
      rewrite (isControlled_Some p x Hv). simpl. by rewrite Hv. }
    apply Forall_app. split; [|by apply run_user_events].
    unfold InputField.mount, InputField.useEffect, InputField.useState,
      InputField.frames_after.
    rewrite (isControlled_Some p x Hv), Hd, Hv. simpl.
    case_decide; by repeat constructor.
Qed.

Lemma controlled_value_settled_witness :
  let p := fieldProps (Some "x") None None None None in
  let evs := [InputField.Change "xa"; InputField.KeyDown "Enter"; InputField.Change "b"] in
  InputField.input_value (InputField.shown (InputField.run (InputField.mount p).1 evs).1)
  = "x".
Proof.
  intros p evs.
  pose proof (proj1 (controlled_value_settled p "x" evs eq_refl eq_refl)) as H.
  change (Some "x"
          = Some (InputField.input_value
                    (InputField.shown (InputField.run (InputField.mount p).1 evs).1)))
    in H.
  symmetry. exact (Some_inj _ _ H).
Defined.

(** ** DataTable: the displayed order *)

Section DisplayedOrder.
Variable localeCompare : string → string → Z.










End DisplayedOrder.





(** * Further properties *)

(** ** DataTable: what the guards rule out *)

Section GuardFacts.
Import DataTable.

Lemma forallb_eq_Forall {A} (f : A → bool) (l : list A) :
  forallb f l = true → Forall (λ x, f x = true) l.
Proof.
  induction l as [|x l IH]; simpl; [constructor|].
  intros [? ?]%andb_prop. constructor; auto.
Qed.

(** An induction principle for [run]: a property of states and calls that
    holds at the start and that every step keeps holds at the end. *)
Lemma run_ind_inv p (ok : Event → Prop) (I : State → Prop)
    (C : Invocation → Prop) s evs :
  (∀ s ev, ok ev → I s → I (handle p s ev).1 ∧ Forall C (handle p s ev).2) →
  Forall ok evs → I s →
  I (run p s evs).1 ∧ Forall C (run p s evs).2.
Proof.
  intros Hstep Hevs. revert s.
  induction Hevs as [|ev evs Hev _ IH]; intros s Hs; simpl; [by split|].
  destruct (Hstep s ev Hev Hs) as [H1 Hc1].
  destruct (handle p s ev) as [s1 c1]. simpl in *.
  destruct (IH s1 H1) as [H2 Hc2].
  destruct (run p s1 evs) as [s2 c2]. simpl in *.
  split; [done|]. by apply Forall_app.
Qed.
End GuardFacts.

(** X1.  Clicks on the headers of columns that are not sortable, however
    many, leave the state as it is and call nothing. *)
Theorem plain_header_clicks_inert (p : DataTable.Props) (s : DataTable.State)
    (evs : list DataTable.Event) :
  forallb DataTable.plain_header_click evs = true →
  DataTable.run p s evs = (s, []).
Proof.
  induction evs as [|ev evs IH]; intros Hevs; simpl; [done|].
  simpl in Hevs. apply andb_prop in Hevs as [Hev Hevs].
  destruct ev as [col| | |]; simpl in Hev; try done.
  simpl. rewrite toggleSort_not_sortable by by apply negb_true_iff.
  by rewrite IH.
Qed.

Lemma plain_header_clicks_inert_witness :
  let col := {| Column.key := "id"; Column.title := "Id"; Column.dataIndex := "id";
                Column.sortable := None; Column.render := None |} in
  let s := {| DataTable.sortConfig := Some {| key := "name"; direction := desc |};
              DataTable.internalSelectedKeys := [JNumber 2] |} in
  DataTable.run (tableProps users DataTable.multiple None) s
    [DataTable.ClickHeader col; DataTable.ClickHeader col]
  = (s, []).
Proof. intros col s. by apply plain_header_clicks_inert. Defined.

(** X2.  In a table that is not selectable, clicks on rows, on row checkboxes
    and on the header checkbox, however many, leave the state as it is and
    call nothing; and the header checkbox is not rendered. *)
Theorem not_selectable_inert (localeCompare : string → string → Z)
    (p : DataTable.Props) (s : DataTable.State) (evs : list DataTable.Event) :
  DataTable.selectable_ p = false →
  forallb (λ ev, negb (DataTable.header_click ev)) evs = true →
  DataTable.run p s evs = (s, [])
  ∧ DataTable.selectAll_of (DataTable.DataTable localeCompare p s) = None.
Proof.
  intros Hsel Hevs. split.
  - induction evs as [|ev evs IH]; simpl; [done|].
    simpl in Hevs. apply andb_prop in Hevs as [Hev Hevs].
    destruct ev as [col|row|row|checked]; simpl in Hev; try done; simpl;
      unfold DataTable.toggleRow, DataTable.handleSelectAll;
      rewrite Hsel; simpl; by rewrite IH.
  - unfold DataTable.DataTable.
    destruct (DataTable.loading_ p); [done|].
    case_bool_decide; [done|]. simpl. by rewrite Hsel.
Qed.

Lemma not_selectable_inert_witness :
  let p := {| DataTable.data := users; DataTable.columns := [nameColumn];
              DataTable.loading := None; DataTable.selectable := None;
              DataTable.selectMode := None; DataTable.selectedRowKeys := None;
              DataTable.rowKey := None; DataTable.onRowSelect := Supplied;
              DataTable.onSort := Supplied |} in
  DataTable.run p DataTable.useState
    [DataTable.ClickRow (user 1 "Shivam Kumar"); DataTable.ChangeSelectAll true]
  = (DataTable.useState, []).
Proof.
  intros p.
  exact (proj1 (not_selectable_inert codeCompare p DataTable.useState
                  [DataTable.ClickRow (user 1 "Shivam Kumar");
                   DataTable.ChangeSelectAll true] eq_refl eq_refl)).
Defined.

(** X3.  When the caller supplies the selected keys, no interaction changes
    the selection that the table keeps itself, and a row is rendered selected
    exactly when its key is among the supplied keys. *)
Theorem controlled_selection_external (localeCompare : string → string → Z)
    (p : DataTable.Props) (keys : list JsValue) (s : DataTable.State)
    (evs : list DataTable.Event) :
  DataTable.selectedRowKeys p = Some keys →
  let s' := (DataTable.run p s evs).1 in
  DataTable.internalSelectedKeys s' = DataTable.internalSelectedKeys s
  ∧ Forall (λ b, DataTable.isSelected b = true ↔ DataTable.row_key b ∈ keys)
      (DataTable.body_of (DataTable.DataTable localeCompare p s')).
Proof.
  intros Hkeys s'. split.
  - unfold s'.
    apply (run_ind_inv p (λ _, True)
             (λ t, DataTable.internalSelectedKeys t = DataTable.internalSelectedKeys s)
             (λ _, True)); [|by apply Forall_true|done].
    intros t ev _ Ht. split; [|by apply Forall_true].
    destruct ev as [col|row|row|checked]; simpl;
      unfold DataTable.toggleSort, DataTable.toggleRow, DataTable.handleSelectAll,
        DataTable.updateSelection;
      rewrite ?Hkeys;
      repeat (match goal with |- context [if ?b then _ else _] => destruct b end;
              simpl; try done);
      by destruct (DataTable.selectMode_ p).
  - unfold DataTable.DataTable.
    destruct (DataTable.loading_ p); [constructor|].
    case_bool_decide; [constructor|]. simpl.
    apply Forall_fmap, Forall_true. intros r. simpl.
    unfold DataTable.selectedKeys. rewrite Hkeys. simpl.
    apply includes_true.
Qed.

Lemma controlled_selection_external_witness :
  let p := tableProps users DataTable.multiple (Some [JNumber 2]) in
  DataTable.internalSelectedKeys
    (DataTable.run p DataTable.useState
       [DataTable.ClickRow (user 1 "Shivam Kumar"); DataTable.ChangeSelectAll true]).1
  = [].
Proof.
  intros p.
  exact (proj1 (controlled_selection_external codeCompare p [JNumber 2]
                  DataTable.useState
                  [DataTable.ClickRow (user 1 "Shivam Kumar");
                   DataTable.ChangeSelectAll true] eq_refl)).
Defined.

(** ** DataTable: sorting and selection side by side *)

Section SideBySide.
Import DataTable.

Lemma Forall_call {I} (C : I → Prop) f c : C c → Forall C (call f c).
Proof. intros Hc. destruct f; simpl; by repeat constructor. Qed.

Lemma handle_header_click p s ev :
  header_click ev = true →
  internalSelectedKeys (handle p s ev).1 = internalSelectedKeys s
  ∧ Forall is_OnSort (handle p s ev).2.
Proof.
  destruct ev as [col| | |]; try done. intros _. simpl. unfold toggleSort.
  destruct (negb _); simpl; [by split|].
  split; [done|]. by apply Forall_call.
Qed.

Lemma handle_selection_event p s ev :
  header_click ev = false →
  sortConfig (handle p s ev).1 = sortConfig s
  ∧ Forall is_OnRowSelect (handle p s ev).2.
Proof.
  assert (∀ keys, sortConfig (updateSelection p s keys).1 = sortConfig s
                  ∧ Forall is_OnRowSelect (updateSelection p s keys).2) as Hu.
  { intros keys. split; [apply updateSelection_sortConfig|].
    by apply Forall_call. }
  destruct ev as [col|row|row|checked]; try done; intros _; simpl;
    unfold toggleRow, handleSelectAll;
    destruct (negb _); simpl; try (by split);
    try (by destruct (selectMode_ p)); by destruct checked.
Qed.
End SideBySide.

(** X4.  Sorting and selection do not touch each other: clicks on headers
    leave the selection as it is and call only [onSort]; clicks on rows, on
    row checkboxes and on the header checkbox leave the sort as it is and
    call only [onRowSelect]. *)
Theorem sort_and_selection_independent (p : DataTable.Props) (s : DataTable.State)
    (evs : list DataTable.Event) :
  (forallb DataTable.header_click evs = true →
     DataTable.internalSelectedKeys (DataTable.run p s evs).1
     = DataTable.internalSelectedKeys s
     ∧ Forall DataTable.is_OnSort (DataTable.run p s evs).2) ∧
  (forallb (λ ev, negb (DataTable.header_click ev)) evs = true →
     DataTable.sortConfig (DataTable.run p s evs).1 = DataTable.sortConfig s
     ∧ Forall DataTable.is_OnRowSelect (DataTable.run p s evs).2).
Proof.
  split; intros Hevs.
  - apply (run_ind_inv p (λ ev, DataTable.header_click ev = true)
             (λ t, DataTable.internalSelectedKeys t = DataTable.internalSelectedKeys s));
      [|by apply forallb_eq_Forall|done].
    intros t ev Hev Ht.
    destruct (handle_header_click p t ev Hev) as [-> ?]. by split.
  - apply (run_ind_inv p (λ ev, DataTable.header_click ev = false)
             (λ t, DataTable.sortConfig t = DataTable.sortConfig s)); [| |done].
    + intros t ev Hev Ht.
      destruct (handle_selection_event p t ev Hev) as [-> ?]. by split.
    + apply forallb_eq_Forall in Hevs. eapply Forall_impl; [exact Hevs|].
      intros ev Hev. by apply negb_true_iff in Hev.
Qed.

Lemma sort_and_selection_independent_witness :
  let p := tableProps users DataTable.multiple None in
  let s := {| DataTable.sortConfig := Some {| key := "name"; direction := asc |};
              DataTable.internalSelectedKeys := [JNumber 3] |} in
  DataTable.internalSelectedKeys
    (DataTable.run p s [DataTable.ClickHeader nameColumn; DataTable.ClickHeader nameColumn]).1
  = [JNumber 3]
  ∧ DataTable.sortConfig
      (DataTable.run p s [DataTable.ClickRow (user 1 "Shivam Kumar");
                          DataTable.ChangeSelectAll false]).1
    = Some {| key := "name"; direction := asc |}.
Proof.
  intros p s. split.
  - exact (proj1 (proj1 (sort_and_selection_independent p s
                           [DataTable.ClickHeader nameColumn;
                            DataTable.ClickHeader nameColumn]) eq_refl)).
  - exact (proj1 (proj2 (sort_and_selection_independent p s
                           [DataTable.ClickRow (user 1 "Shivam Kumar");
                            DataTable.ChangeSelectAll false]) eq_refl)).
Defined.

(** ** DataTable: the header checkbox *)

Section SelectAllFacts.
Import DataTable.

Lemma filter_all {A} (P : A → Prop) `{∀ x, Decision (P x)} (l : list A) :
  Forall P l → filter P l = l.
Proof.
  induction 1 as [|x l Hx _ IH]; [done|].
  by rewrite filter_cons_True, IH.
Qed.

Lemma filter_includes_dataKeys p :
  filter (λ r, includes (dataKeys p) (get r (rowKey_ p))) (data p) = data p.
Proof.
  apply filter_all, Forall_forall. intros r Hr.
  apply Is_true_true, includes_true. unfold dataKeys.
  apply list_elem_of_fmap. by exists r.
Qed.

Lemma handleSelectAll_calls p s checked :
  selectable_ p = true →
  (handleSelectAll p s checked).2
  = call (onRowSelect p) (OnRowSelect (if checked then data p else [])).
Proof.
  intros Hsel. unfold handleSelectAll. rewrite Hsel. cbn [negb].
  destruct checked; unfold updateSelection; cbn [snd].
  - change ((λ r, get r (rowKey_ p)) <$> data p) with (dataKeys p).
    by rewrite (filter_includes_dataKeys p).
  - do 2 f_equal. induction (data p) as [|r rows IH]; [done|].
    by rewrite filter_cons_False by (by intros ?%Is_true_true%includes_true%elem_of_nil).
Qed.
End SelectAllFacts.

Lemma sortedData_perm (localeCompare : string → string → Z) (data : list Row)
    (sc : option SortConfig) :
  sortedData localeCompare data sc ≡ₚ data.
Proof. destruct sc as [[k d]|]; simpl; [apply Array_sort_perm|done]. Qed.

(** X5.  In a selectable table, checking the header checkbox calls
    [onRowSelect] once with all the rows of the data, in the order of the
    data, and unchecking it calls [onRowSelect] once with no row; the table
    calls nothing else. *)
Theorem handleSelectAll_notifies (p : DataTable.Props) (s : DataTable.State)
    (checked : bool) :
  DataTable.selectable_ p = true →
  (DataTable.handle p s (DataTable.ChangeSelectAll checked)).2
  = call (DataTable.onRowSelect p)
      (DataTable.OnRowSelect (if checked then DataTable.data p else [])).
Proof. apply handleSelectAll_calls. Qed.

Lemma handleSelectAll_notifies_witness :
  (DataTable.handle (tableProps users DataTable.multiple None) DataTable.useState
     (DataTable.ChangeSelectAll true)).2
  = [DataTable.OnRowSelect users].
Proof.
  exact (handleSelectAll_notifies (tableProps users DataTable.multiple None)
           DataTable.useState true eq_refl).
Defined.

(** X6.  In a selectable table that owns its selection and shows rows, after
    the header checkbox is checked every row is rendered selected and the
    header checkbox is rendered checked; after it is unchecked no row is
    rendered selected and the header checkbox is rendered unchecked. *)
Theorem select_all_view (localeCompare : string → string → Z)
    (p : DataTable.Props) (s : DataTable.State) :
  DataTable.selectable_ p = true →
  DataTable.selectedRowKeys p = None →
  DataTable.loading_ p = false →
  DataTable.data p ≠ [] →
  let after checked :=
    DataTable.DataTable localeCompare p
      (DataTable.handle p s (DataTable.ChangeSelectAll checked)).1 in
  DataTable.selectAll_of (after true) = Some true
  ∧ Forall (λ b, DataTable.isSelected b = true) (DataTable.body_of (after true))
  ∧ DataTable.selectAll_of (after false) = Some false
  ∧ Forall (λ b, DataTable.isSelected b = false) (DataTable.body_of (after false)).
Proof.
  intros Hsel Hu Hload Hdata after.
  assert (∀ checked,
    DataTable.selectedKeys p (DataTable.handle p s (DataTable.ChangeSelectAll checked)).1
    = if checked then DataTable.dataKeys p else []) as Hkeys.
  { intros checked. unfold DataTable.selectedKeys. rewrite Hu. simpl.
    unfold DataTable.handleSelectAll. rewrite Hsel. cbn [negb].
    destruct checked; by rewrite updateSelection_uncontrolled. }
  assert (length (DataTable.data p) ≠ 0%nat) as Hlen
    by (by destruct (DataTable.data p)).
  unfold after, DataTable.DataTable. rewrite Hload, Hsel.
  rewrite bool_decide_eq_false_2 by done. cbn [DataTable.selectAll_of DataTable.body_of].
  unfold DataTable.allSelected. rewrite !Hkeys. split_and!.
  - f_equal. apply andb_true_intro. split; apply bool_decide_eq_true; [lia|].
    unfold DataTable.dataKeys. by rewrite length_fmap.
  - apply Forall_fmap, Forall_forall. intros r Hr.
    unfold compose, DataTable.renderRow. cbn [DataTable.isSelected]. rewrite Hkeys.
    apply includes_true. unfold DataTable.dataKeys.
    apply list_elem_of_fmap. exists r. split; [done|].
    by rewrite sortedData_perm in Hr.
  - f_equal. apply andb_false_intro2, bool_decide_eq_false. simpl. lia.
  - apply Forall_fmap, Forall_forall. intros r Hr.
    unfold compose, DataTable.renderRow. cbn [DataTable.isSelected]. rewrite Hkeys.
    apply includes_false. by intros ?%elem_of_nil.
Qed.

Lemma select_all_view_witness :
  DataTable.selectAll_of
    (DataTable.DataTable codeCompare (tableProps users DataTable.multiple None)
       (DataTable.handle (tableProps users DataTable.multiple None) DataTable.useState
          (DataTable.ChangeSelectAll true)).1)
  = Some true.
Proof.
  refine (proj1 (select_all_view codeCompare (tableProps users DataTable.multiple None)
                   DataTable.useState eq_refl eq_refl eq_refl _)).
  unfold tableProps, users. simpl. congruence.
Defined.

(** X7.  In multiple mode, in a table that owns its selection, clicking twice
    a row that is not selected gives back the selection there was. *)
Theorem toggleRow_twice (p : DataTable.Props) (s : DataTable.State) (row : Row) :
  DataTable.selectable_ p = true →
  DataTable.selectedRowKeys p = None →
  DataTable.selectMode_ p = DataTable.multiple →
  get row (DataTable.rowKey_ p) ∉ DataTable.internalSelectedKeys s →
  DataTable.internalSelectedKeys
    (DataTable.toggleRow p (DataTable.toggleRow p s row).1 row).1
  = DataTable.internalSelectedKeys s.
Proof.
  intros Hsel Hu Hm Hout.
  assert (∀ t, DataTable.selectedKeys p t = DataTable.internalSelectedKeys t) as Hkeys
    by (intros t; unfold DataTable.selectedKeys; by rewrite Hu).
  set (k := get row (DataTable.rowKey_ p)) in *.
  assert (DataTable.internalSelectedKeys (DataTable.toggleRow p s row).1
          = DataTable.internalSelectedKeys s ++ [k]) as H1.
  { rewrite toggleRow_multiple, updateSelection_uncontrolled by done.
    rewrite Hkeys. fold k.
    by rewrite (proj2 (includes_false _ _) Hout). }
  rewrite toggleRow_multiple, updateSelection_uncontrolled by done.
  rewrite Hkeys, H1. fold k.
  rewrite (proj2 (includes_true _ _)) by (apply elem_of_app; right; left).
  rewrite filter_app, filter_cons_False, filter_nil, app_nil_r by (by intros []).
  apply filter_all, Forall_forall. by intros k' Hk' ->.
Qed.

Lemma toggleRow_twice_witness :
  let p := tableProps users DataTable.multiple None in
  let s := {| DataTable.sortConfig := None;
              DataTable.internalSelectedKeys := [JNumber 3; JNumber 1] |} in
  DataTable.internalSelectedKeys
    (DataTable.toggleRow p (DataTable.toggleRow p s (user 2 "Shashank")).1
       (user 2 "Shashank")).1
  = [JNumber 3; JNumber 1].
Proof.
  intros p s.
  refine (toggleRow_twice p s (user 2 "Shashank") eq_refl eq_refl eq_refl _).
  vm_compute. intros H.
  repeat (apply elem_of_cons in H as [H|H]; [discriminate H|]).
  by apply elem_of_nil in H.
Defined.

Section OwnedSelection.
Import DataTable.

(** What the table keeps when it owns the selection: keys of rows of the
    data, each one once. *)
Lemma handle_owned_selection p s ev :
  selectedRowKeys p = None → NoDup (dataKeys p) → on_data p ev →
  NoDup (internalSelectedKeys s) ∧ internalSelectedKeys s ⊆ dataKeys p →
  NoDup (internalSelectedKeys (handle p s ev).1)
  ∧ internalSelectedKeys (handle p s ev).1 ⊆ dataKeys p.
Proof.
  intros Hu Hkeys Hev [Hnd Hsub].
  assert (selectedKeys p s = internalSelectedKeys s) as Hsel
    by (unfold selectedKeys; by rewrite Hu).
  assert (∀ row, row ∈ data p →
    NoDup (internalSelectedKeys (toggleRow p s row).1)
    ∧ internalSelectedKeys (toggleRow p s row).1 ⊆ dataKeys p) as Hrow.
  { intros row Hrow.
    assert (get row (rowKey_ p) ∈ dataKeys p) as Hk
      by (unfold dataKeys; apply list_elem_of_fmap; by exists row).
    unfold toggleRow. destruct (negb _); [done|].
    destruct (selectMode_ p); rewrite updateSelection_uncontrolled, Hsel by done.
    - destruct (includes _ _); split.
      + constructor.
      + by intros ? ?%elem_of_nil.
      + apply NoDup_singleton.
      + by intros ? ->%list_elem_of_singleton.
    - destruct (includes _ _) eqn:Hin; split.
      + by apply NoDup_filter.
      + intros k' [_ Hk']%list_elem_of_filter. by apply Hsub.
      + apply NoDup_app. split_and!; [done| |apply NoDup_singleton].
        intros k' Hk' ->%list_elem_of_singleton.
        by apply includes_false in Hin.
      + intros k' [Hk'| ->%list_elem_of_singleton]%elem_of_app; [by apply Hsub|done]. }
  destruct ev as [col|row|row|checked].
  - by rewrite (proj1 (handle_header_click p s (ClickHeader col) eq_refl)).
  - by apply Hrow.
  - by apply Hrow.
  - cbn [handle]. unfold handleSelectAll. destruct (negb _); [done|].
    destruct checked; rewrite updateSelection_uncontrolled by done.
    + done.
    + split; [constructor|]. by intros ? ?%elem_of_nil.
Qed.
End OwnedSelection.

(** X8.  In a table that owns its selection, over data whose identity keys
    are distinct, after any interactions from the initial state the selected
    keys are keys of rows of the data, each selected once, and the header
    checkbox tells the truth: [allSelected] holds exactly when the data is not
    empty and every row of the data is selected. *)
Theorem allSelected_when_owned (p : DataTable.Props) (evs : list DataTable.Event) :
  DataTable.selectedRowKeys p = None →
  NoDup (DataTable.dataKeys p) →
  Forall (DataTable.on_data p) evs →
  let s := (DataTable.run p DataTable.useState evs).1 in
  NoDup (DataTable.internalSelectedKeys s)
  ∧ DataTable.internalSelectedKeys s ⊆ DataTable.dataKeys p
  ∧ (DataTable.allSelected p s = true
     ↔ DataTable.data p ≠ []
       ∧ ∀ r, r ∈ DataTable.data p →
              get r (DataTable.rowKey_ p) ∈ DataTable.selectedKeys p s).
Proof.
  intros Hu Hkeys Hevs s.
  assert (NoDup (DataTable.internalSelectedKeys s)
          ∧ DataTable.internalSelectedKeys s ⊆ DataTable.dataKeys p) as [Hnd Hsub].
  { unfold s.
    apply (run_ind_inv p (DataTable.on_data p)
             (λ t, NoDup (DataTable.internalSelectedKeys t)
                   ∧ DataTable.internalSelectedKeys t ⊆ DataTable.dataKeys p)
             (λ _, True)); [|done|].
    - intros t ev Hev Ht. split; [|by apply Forall_true].
      by apply handle_owned_selection.
    - split; [constructor|]. by intros ? ?%elem_of_nil. }
  split_and!; [done..|].
  unfold DataTable.allSelected, DataTable.selectedKeys. rewrite Hu. simpl.
  rewrite andb_true_iff, !bool_decide_eq_true.
  assert (length (DataTable.dataKeys p) = length (DataTable.data p)) as Hlen
    by (unfold DataTable.dataKeys; by rewrite length_fmap).
  split.
  - intros [Hpos Heq]. split; [by destruct (DataTable.data p); simpl in *; try lia|].
    intros r Hr.
    assert (DataTable.internalSelectedKeys s ≡ₚ DataTable.dataKeys p) as ->.
    { apply submseteq_length_Permutation; [by apply NoDup_submseteq|lia]. }
    unfold DataTable.dataKeys. apply list_elem_of_fmap. by exists r.
  - intros [Hne Hall]. split; [destruct (DataTable.data p); simpl; [done|lia]|].
    rewrite <- Hlen.
    apply Permutation_length, NoDup_Permutation; [done..|].
    intros k. split; [apply Hsub|].
    unfold DataTable.dataKeys. intros (r & -> & Hr)%list_elem_of_fmap.
    by apply Hall.
Qed.

Lemma allSelected_when_owned_witness :
  let p := tableProps users DataTable.multiple None in
  let s := (DataTable.run p DataTable.useState
              [DataTable.ClickRow (user 2 "Shashank"); DataTable.ChangeSelectAll true;
               DataTable.ClickRow (user 2 "Shashank")]).1 in
  NoDup (DataTable.internalSelectedKeys s).
Proof.
  intros p s.
  refine (proj1 (allSelected_when_owned p
                   [DataTable.ClickRow (user 2 "Shashank");
                    DataTable.ChangeSelectAll true;
                    DataTable.ClickRow (user 2 "Shashank")] eq_refl _ _)).
  - apply (bool_decide_unpack _). by vm_compute.
  - assert (user 2 "Shashank" ∈ users) as Hrow by (unfold users; right; left).
    repeat constructor; exact Hrow.
Defined.

(** ** The sort, continued *)

Section ArraySortMore.
Context {A : Type} (comparefn : A → A → Z).

Lemma Array_sort_sorted_id l :
  StronglySorted (cmp_le comparefn) l → Array_sort comparefn l = l.
Proof.
  induction 1 as [|x l _ IH Hx]; simpl; [done|].
  rewrite IH. destruct Hx as [|y l Hxy _]; simpl; [done|].
  unfold cmp_le in Hxy. by destruct (Z.ltb_spec 0 (comparefn x y)); [lia|].
Qed.

Lemma StronglySorted_reverse_flip (R R' : A → A → Prop) l :
  (∀ a b, R a b → R' b a) →
  StronglySorted R l → StronglySorted R' (reverse l).
Proof.
  intros Hflip. induction 1 as [|x l _ IH Hx]; [constructor|].
  rewrite reverse_cons. apply StronglySorted_app. split_and!.
  - intros a b Ha ->%list_elem_of_singleton.
    rewrite elem_of_reverse in Ha.
    rewrite Forall_forall in Hx. by apply Hflip, Hx.
  - done.
  - repeat constructor.
Qed.

Lemma filter_none (P : A → Prop) `{∀ x, Decision (P x)} (l : list A) :
  Forall (λ x, ¬ P x) l → filter P l = [].
Proof.
  induction 1 as [|x l Hx _ IH]; [done|]. by rewrite filter_cons_False.
Qed.

Lemma filter_only (P : A → Prop) `{∀ x, Decision (P x)} (l : list A) w :
  NoDup l → w ∈ l → (∀ r, r ∈ l → P r ↔ r = w) → filter P l = [w].
Proof.
  induction 1 as [|x l Hx Hnd IH]; intros Hw HP; [by apply elem_of_nil in Hw|].
  destruct (decide (P x)) as [HPx|HPx].
  - rewrite filter_cons_True by done.
    apply HP in HPx as ->; [|left].
    f_equal. apply filter_none, Forall_forall.
    intros r Hr HPr. apply HP in HPr; [|by right]. by subst.
  - rewrite filter_cons_False by done.
    apply elem_of_cons in Hw as [->|Hw]; [destruct HPx; apply HP; [left|done]|].
    apply IH; [done|]. intros r Hr. apply HP. by right.
Qed.
End ArraySortMore.

Lemma compareRows_desc_flip (localeCompare : string → string → Z) k a b :
  compareRows localeCompare k desc a b = compareRows localeCompare k asc b a.
Proof.
  unfold compareRows.
  by destruct (get a k) as [| | |x|], (get b k) as [| | |y|].
Qed.

(** X9.  Where the comparison function orders the data consistently, sorting
    rows that are already displayed in sorted order changes nothing. *)
Theorem sortedData_idempotent (localeCompare : string → string → Z)
    (data : list Row) (sc : SortConfig) :
  ConsistentOn (compareRows localeCompare (key sc) (direction sc)) data →
  sortedData localeCompare (sortedData localeCompare data (Some sc)) (Some sc)
  = sortedData localeCompare data (Some sc).
Proof.
  intros Hc. destruct sc as [k d]. simpl in *.
  apply Array_sort_sorted_id. by apply (Array_sort_sorted _ data Hc).
Qed.

Lemma sortedData_idempotent_witness :
  let sc := {| key := "age"; direction := asc |} in
  sortedData codeCompare (sortedData codeCompare people (Some sc)) (Some sc)
  = sortedData codeCompare people (Some sc).
Proof.
  intros sc. apply (sortedData_idempotent codeCompare people sc).
  apply compareRows_consistent_numeric. intros r Hr. unfold people in Hr.
  repeat (apply elem_of_cons in Hr as [->|Hr]; [exact I|]).
  by apply elem_of_nil in Hr.
Defined.

(** X10.  The descending comparison is the ascending one with its arguments
    exchanged.  Where the ascending comparison orders the data consistently
    and no two rows compare equal, the descending order is the ascending
    order read backwards. *)
Theorem sortedData_desc_reverse (localeCompare : string → string → Z)
    (data : list Row) (k : string) :
  (∀ a b, compareRows localeCompare k desc a b = compareRows localeCompare k asc b a) ∧
  (ConsistentOn (compareRows localeCompare k asc) data →
   NoDup data →
   (∀ a b, a ∈ data → b ∈ data → compareRows localeCompare k asc a b = 0 → a = b) →
   sortedData localeCompare data (Some {| key := k; direction := desc |})
   = reverse (sortedData localeCompare data (Some {| key := k; direction := asc |}))).
Proof.
  split; [apply compareRows_desc_flip|].
  intros Hc Hnd Hties. simpl.
  set (cmpA := compareRows localeCompare k asc) in *.
  set (cmpD := compareRows localeCompare k desc).
  assert (∀ a b, cmpD a b = cmpA b a) as Hflip
    by apply compareRows_desc_flip.
  assert (ConsistentOn cmpD data) as HcD.
  { destruct Hc as [Hsgn Htr]. split.
    - intros a b Ha Hb. rewrite !Hflip. by apply Hsgn.
    - intros a b c Ha Hb Hc'. unfold cmp_le. rewrite !Hflip.
      intros Hab Hbc. by apply (Htr c b a). }
  assert (∀ l w, l ≡ₚ data → w ∈ data → filter (cmp_eq cmpD w) l = [w]) as Hclass.
  { intros l w Hl Hw. apply filter_only.
    - by rewrite Hl.
    - by rewrite Hl.
    - intros r Hr. rewrite Hl in Hr. unfold cmp_eq. rewrite Hflip. split.
      + by apply Hties.
      + intros ->. by apply (consistent_refl cmpA data Hc). }
  apply (stable_sorted_unique cmpD data); auto.
  - intros z Hz. by apply Array_sort_elem_of in Hz.
  - by rewrite reverse_Permutation, !Array_sort_perm.
  - by apply (Array_sort_sorted cmpD data HcD).
  - apply (StronglySorted_reverse_flip (cmp_le cmpA)).
    + intros a b Hab. unfold cmp_le. by rewrite Hflip.
    + by apply (Array_sort_sorted cmpA data Hc).
  - intros w Hw. rewrite !Hclass; auto.
    + by rewrite reverse_Permutation, Array_sort_perm.
    + apply Array_sort_perm.
Qed.

Lemma sortedData_desc_reverse_witness :
  sortedData codeCompare adults (Some {| key := "age"; direction := desc |})
  = reverse (sortedData codeCompare adults (Some {| key := "age"; direction := asc |})).
Proof.
  apply (proj2 (sortedData_desc_reverse codeCompare adults "age")).
  - apply compareRows_consistent_numeric. intros r Hr. unfold adults in Hr.
    repeat (apply elem_of_cons in Hr as [->|Hr]; [exact I|]).
    by apply elem_of_nil in Hr.
  - apply (bool_decide_unpack _). by vm_compute.
  - intros a b Ha Hb. unfold adults in Ha, Hb.
    repeat (apply elem_of_cons in Ha as [->|Ha]);
      try (by apply elem_of_nil in Ha);
      repeat (apply elem_of_cons in Hb as [->|Hb]);
      try (by apply elem_of_nil in Hb);
      try done; by vm_compute.
Defined.

(** ** DataTable: what is rendered *)

Lemma body_keys_unsorted (localeCompare : string → string → Z)
    (p : DataTable.Props) (s : DataTable.State) :
  DataTable.loading_ p = false →
  DataTable.sortConfig s = None →
  DataTable.row_key <$> DataTable.body_of (DataTable.DataTable localeCompare p s)
  = DataTable.dataKeys p.
Proof.
  intros Hload Hsort. unfold DataTable.DataTable. rewrite Hload, Hsort.
  unfold DataTable.dataKeys. case_bool_decide as Hlen.
  { by destruct (DataTable.data p). }
  cbn [DataTable.body_of sortedData]. by rewrite <- list_fmap_compose.
Qed.

(** X11.  A table that is not loading renders one row for each row of the
    data: the keys of the rendered rows are the keys of the data, in the order
    of the data when no sort is active and rearranged otherwise, and every
    rendered row has one cell for each column. *)
Theorem body_rows (localeCompare : string → string → Z)
    (p : DataTable.Props) (s : DataTable.State) :
  DataTable.loading_ p = false →
  let body := DataTable.body_of (DataTable.DataTable localeCompare p s) in
  DataTable.row_key <$> body ≡ₚ DataTable.dataKeys p
  ∧ length body = length (DataTable.data p)
  ∧ Forall (λ b, length (DataTable.cells b) = length (DataTable.columns p)) body
  ∧ (DataTable.sortConfig s = None → DataTable.row_key <$> body = DataTable.dataKeys p).
Proof.
  intros Hload body. unfold body, DataTable.DataTable. rewrite Hload.
  case_bool_decide as Hlen.
  { destruct (DataTable.data p) eqn:Hdata; [|done].
    unfold DataTable.dataKeys. rewrite Hdata. simpl. by repeat split. }
  cbn [DataTable.body_of]. rewrite <- list_fmap_compose.
  change (DataTable.row_key ∘ DataTable.renderRow p s)
    with (λ r : Row, get r (DataTable.rowKey_ p)).
  unfold DataTable.dataKeys. split_and!.
  - by rewrite sortedData_perm.
  - by rewrite length_fmap, sortedData_perm.
  - apply Forall_fmap, Forall_true. intros r.
    unfold compose, DataTable.renderRow. cbn [DataTable.cells]. by rewrite length_fmap.
  - by intros ->.
Qed.

Lemma body_rows_witness :
  let s := {| DataTable.sortConfig := Some {| key := "name"; direction := asc |};
              DataTable.internalSelectedKeys := [] |} in
  DataTable.row_key
    <$> DataTable.body_of
          (DataTable.DataTable codeCompare (tableProps users DataTable.multiple None) s)
  ≡ₚ [JNumber 1; JNumber 2; JNumber 3].
Proof.
  intros s.
  exact (proj1 (body_rows codeCompare (tableProps users DataTable.multiple None) s
                  eq_refl)).
Defined.

(** X12.  After a click on the header of a sortable column, that header is
    marked ascending if the column was not the sorted one, descending if it
    was sorted ascending, and unmarked if it was sorted descending; the
    header of every column with another key is unmarked. *)
Theorem header_after_click (p : DataTable.Props) (s : DataTable.State) (col : Column.t) :
  Column.sortable col = Some true →
  let s' := (DataTable.handle p s (DataTable.ClickHeader col)).1 in
  DataTable.ariaSort (DataTable.renderHeader s' col)
  = match DataTable.sortConfig s with
    | Some sc =>
        if decide (key sc = Column.key col)
        then (if direction sc is asc then DataTable.descending else DataTable.none)
        else DataTable.ascending
    | None => DataTable.ascending
    end
  ∧ ∀ col', Column.key col' ≠ Column.key col →
            DataTable.ariaSort (DataTable.renderHeader s' col') = DataTable.none.
Proof.
  intros Hsortable s'. unfold s'. cbn [DataTable.handle]. rewrite Hsortable.
  destruct (DataTable.sortConfig s) as [[k d]|] eqn:Hs.
  - cbn [key direction].
    destruct (decide (k = Column.key col)) as [Heq|Hne].
    + subst k. rewrite (toggleSort_same p s _ d Hs).
      destruct d; unfold DataTable.renderHeader; simpl.
      * rewrite bool_decide_eq_true_2 by done. split; [done|].
        intros col' Hne. rewrite bool_decide_eq_false_2; [done|congruence].
      * done.
    + rewrite (toggleSort_other p s _ _ Hs) by done.
      unfold DataTable.renderHeader; simpl.
      rewrite bool_decide_eq_true_2 by done. split; [done|].
      intros col' Hne'. rewrite bool_decide_eq_false_2; [done|congruence].
  - rewrite (toggleSort_unsorted p s _ Hs).
    unfold DataTable.renderHeader; simpl.
    rewrite bool_decide_eq_true_2 by done. split; [done|].
    intros col' Hne'. rewrite bool_decide_eq_false_2; [done|congruence].
Qed.

Lemma header_after_click_witness :
  let p := tableProps users DataTable.multiple None in
  let s := {| DataTable.sortConfig := Some {| key := "name"; direction := asc |};
              DataTable.internalSelectedKeys := [] |} in
  DataTable.ariaSort
    (DataTable.renderHeader (DataTable.handle p s (DataTable.ClickHeader nameColumn)).1
       nameColumn)
  = DataTable.descending.
Proof.
  intros p s. exact (proj1 (header_after_click p s nameColumn eq_refl)).
Defined.

(** ** InputField: the uncontrolled value *)

Section UncontrolledFacts.
Import InputField.

Lemma default_last_cons {A} (d x : A) (l : list A) :
  default d (last (x :: l)) = default x (last l).
Proof.
  revert d x. induction l as [|y l IH]; intros d x; [done|].
  change (default d (last (y :: l)) = default x (last (y :: l))).
  by rewrite (IH d y), (IH x y).
Qed.

Lemma run_uncontrolled i evs :
  isControlled (props i) = false →
  forallb uncontrolled_event evs = true →
  isControlled (props (run i evs).1) = false
  ∧ internalValue (state (run i evs).1)
    = default (internalValue (state i)) (last_edit evs).
Proof.
  revert i. induction evs as [|ev evs IH]; intros i Hc Hevs; simpl; [done|].
  simpl in Hevs. apply andb_prop in Hevs as [Hev Hevs].
  assert (isControlled (props (step i ev).1.1) = false
          ∧ internalValue (state (step i ev).1.1)
            = default (internalValue (state i)) (edit_of ev)) as [Hc1 Hv1].
  { destruct ev as [v| |k| |p']; simpl in *;
      unfold handleChange, handleClear; rewrite ?Hc; simpl; try done.
    apply negb_true_iff in Hev. split; [done|].
    case_decide; [done|]. unfold useEffect. by rewrite Hev. }
  destruct (step i ev) as [[i1 f1] c1]. simpl in Hc1, Hv1.
  destruct (IH i1 Hc1 Hevs) as [Hc2 Hv2].
  destruct (run i1 evs) as [i2 f2]. simpl in *.
  split; [done|]. rewrite Hv2, Hv1. unfold last_edit. simpl.
  destruct (edit_of ev) as [v|]; simpl; [|done].
  by rewrite default_last_cons.
Qed.
End UncontrolledFacts.

(** X13.  A field that is never given a value commits one frame at creation,
    showing the initial value if there is one and the empty text otherwise.
    After any sequence of user events and updates it shows the text of the
    last edit (the text typed last, or the empty text if the field was cleared
    since), and the initial text if there was no edit; updates of the other
    props, the initial value among them, change nothing. *)
Theorem uncontrolled_value_tracks (p : InputField.Props) (evs : list InputField.Event) :
  InputField.value p = None →
  forallb InputField.uncontrolled_event evs = true →
  let initial := nullish_or (InputField.defaultValue p) "" in
  InputField.input_value <$> (InputField.mount p).2 = [initial]
  ∧ InputField.input_value (InputField.shown (InputField.run (InputField.mount p).1 evs).1)
    = default initial (InputField.last_edit evs).
Proof.
  intros Hv Hevs initial.
  assert (InputField.isControlled p = false) as Hc.
  { unfold InputField.isControlled. rewrite Hv. apply bool_decide_eq_false. by intros []. }
  assert (InputField.mount p
          = ({| InputField.props := p; InputField.state := InputField.useState p |},
             [InputField.InputField p (InputField.useState p)])) as Hmount.
  { unfold InputField.mount, InputField.useEffect, InputField.frames_after.
    rewrite Hc. by rewrite decide_True. }
  rewrite Hmount. cbn [fst snd]. split.
  - simpl. by rewrite Hv.
  - unfold InputField.shown. cbn [InputField.InputField InputField.input_value].
    rewrite (proj2 (run_uncontrolled
                      {| InputField.props := p; InputField.state := InputField.useState p |}
                      evs Hc Hevs)).
    simpl. by rewrite Hv.
Qed.

Lemma uncontrolled_value_tracks_witness :
  let p := fieldProps None (Some "hello") None None None in
  let q := fieldProps None (Some "other") None None None in
  InputField.input_value
    (InputField.shown
       (InputField.run (InputField.mount p).1
          [InputField.Change "a"; InputField.Change "ab"; InputField.Rerender q;
           InputField.KeyDown "Enter"]).1)
  = "ab".
Proof.
  intros p q.
  exact (proj2 (uncontrolled_value_tracks p
                  [InputField.Change "a"; InputField.Change "ab"; InputField.Rerender q;
                   InputField.KeyDown "Enter"] eq_refl eq_refl)).
Defined.

(** X14.  In a field that is not controlled, a click on the clear button
    empties the text and the clear button is no longer rendered; in a
    controlled field it leaves the state as it is.  In both it calls
    [onChange] with the empty text and then [onClear], as far as they are
    supplied, and it moves the focus to the input only when the caller
    forwards a ref. *)
Theorem handleClear_effects (i : InputField.Instance) :
  let r := InputField.step i InputField.ClickClear in
  let p := InputField.props i in
  r.2 = call (InputField.onChange p) (InputField.OnChange "")
        ++ call (InputField.onClear p) InputField.OnClear
        ++ (if InputField.ref p then [InputField.Focus] else [])
  ∧ InputField.props r.1.1 = p
  ∧ (InputField.isControlled p = false →
       InputField.input_value (InputField.shown r.1.1) = ""
       ∧ InputField.clearButton (InputField.shown r.1.1) = false)
  ∧ (InputField.isControlled p = true → InputField.state r.1.1 = InputField.state i).
Proof.
  simpl. unfold InputField.handleClear. split_and!; try done.
  - intros Hc. rewrite Hc. simpl. split; [done|].
    by rewrite andb_false_r.
  - intros Hc. by rewrite Hc.
Qed.

Lemma handleClear_effects_witness :
  let i := (InputField.run (InputField.mount (fieldProps None None None None None)).1
              [InputField.Change "ab"]).1 in
  InputField.input_value (InputField.shown i) = "ab"
  ∧ InputField.input_value (InputField.shown (InputField.step i InputField.ClickClear).1.1)
    = ""
  ∧ (InputField.step i InputField.ClickClear).2 = [InputField.OnChange ""].
Proof.
  intros i. split; [reflexivity|].
  destruct (handleClear_effects i) as (Hcalls & _ & Hun & _).
  split; [exact (proj1 (Hun eq_refl)) | exact Hcalls].
Defined.

(** X15.  With the password toggle enabled on a password field, the field
    is created masked; a click on the toggle shows the text if it was masked
    and masks it if it was shown, two clicks give back the state there was,
    and a click changes neither the text nor calls anything. *)
Theorem password_toggle (i : InputField.Instance) :
  InputField.type_ (InputField.props i) = "password" →
  InputField.showPasswordToggle_ (InputField.props i) = true →
  let click j := (InputField.step j InputField.ClickPasswordToggle).1.1 in
  InputField.input_type (InputField.shown (InputField.mount (InputField.props i)).1)
  = "password"
  ∧ InputField.input_type (InputField.shown (click i))
    = (if InputField.showPassword (InputField.state i) then "password" else "text")
  ∧ click (click i) = i
  ∧ InputField.input_value (InputField.shown (click i))
    = InputField.input_value (InputField.shown i)
  ∧ (InputField.step i InputField.ClickPasswordToggle).2 = [].
Proof.
  intros Htype Htoggle click. destruct i as [p [v shown]]. simpl in *.
  unfold InputField.shown, InputField.mount, InputField.useEffect. simpl.
  rewrite Htoggle, Htype. split_and!; try done.
  - by destruct (InputField.isControlled p).
  - by destruct shown.
  - unfold click. simpl. unfold InputField.togglePassword. simpl.
    by rewrite negb_involutive.
Qed.

Lemma password_toggle_witness :
  let p := {| InputField.value := None; InputField.defaultValue := Some "secret";
              InputField.onChange := Absent; InputField.onClear := Absent;
              InputField.onEnter := Absent; InputField.label := None;
              InputField.placeholder := None; InputField.helperText := None;
              InputField.errorMessage := None; InputField.disabled := None;
              InputField.invalid := None; InputField.loading := None;
              InputField.type := Some "password"; InputField.showClearButton := None;
              InputField.showPasswordToggle := Some true; InputField.ref := false |} in
  InputField.input_type
    (InputField.shown
       (InputField.step (InputField.mount p).1 InputField.ClickPasswordToggle).1.1)
  = "text".
Proof.
  intros p.
  exact (proj1 (proj2 (password_toggle (InputField.mount p).1 eq_refl eq_refl))).
Defined.

(** ** InputField: updates of the value *)

Section UpdateFacts.
Import InputField.

Lemma isControlled_None p : value p = None → isControlled p = false.
Proof. intros Hv. unfold isControlled. rewrite Hv. apply bool_decide_eq_false. by intros []. Qed.

Lemma mount_holds_value p : holds_value (mount p).1.
Proof.
  intros v Hv. simpl in *. unfold useEffect.
  rewrite (isControlled_Some p v Hv). simpl. by rewrite Hv.
Qed.

Lemma step_holds_value i ev : holds_value i → holds_value (step i ev).1.1.
Proof.
  intros Hi v. destruct ev as [w| |k| |p']; simpl;
    unfold handleChange, handleClear.
  - intros Hv. rewrite (isControlled_Some _ v Hv). simpl. by apply Hi.
  - intros Hv. rewrite (isControlled_Some _ v Hv). simpl. by apply Hi.
  - apply Hi.
  - apply Hi.
  - intros Hv. case_decide as Hdeps.
    + injection Hdeps as Hvalue _. apply Hi. by rewrite <- Hvalue.
    + unfold useEffect. rewrite (isControlled_Some _ v Hv). simpl. by rewrite Hv.
Qed.

Lemma run_holds_value i evs : holds_value i → holds_value (run i evs).1.
Proof.
  revert i. induction evs as [|ev evs IH]; intros i Hi; simpl; [done|].
  pose proof (step_holds_value i ev Hi) as H1.
  destruct (step i ev) as [[i1 f1] c1]. simpl in H1.
  specialize (IH i1 H1). by destruct (run i1 evs) as [i2 f2].
Qed.
End UpdateFacts.

(** X16.  Whatever happened to a field since its creation, with or without
    a value, an update that supplies a value makes the field show that value
    once the effect has run, and an update that supplies none leaves the text
    shown as it is. *)
Theorem rerender_value (p : InputField.Props) (evs : list InputField.Event)
    (p' : InputField.Props) :
  let i := (InputField.run (InputField.mount p).1 evs).1 in
  InputField.input_value
    (InputField.shown (InputField.step i (InputField.Rerender p')).1.1)
  = match InputField.value p' with
    | Some v => v
    | None => InputField.input_value (InputField.shown i)
    end.
Proof.
  intros i.
  pose proof (step_holds_value i (InputField.Rerender p')
                (run_holds_value _ evs (mount_holds_value p))) as Hafter.
  destruct (InputField.value p') as [v|] eqn:Hv.
  - apply Hafter. simpl. exact Hv.
  - simpl. case_decide; [done|].
    unfold InputField.useEffect. by rewrite (isControlled_None p' Hv).
Qed.

(** ** App: the search box *)

(** X17.  The search box of the screen is controlled by the query: when the
    user types, the field calls [onChange], the screen stores the text as the
    query without starting a search, and the update that follows makes the
    field show the text typed. *)
Theorem search_field_echo (pg : App.Page) (i : InputField.Instance) (v : string) :
  InputField.props i = App.searchField (App.state pg) →
  InputField.mirrors i →
  let r1 := InputField.step i (InputField.Change v) in
  let pg' := foldl App.onField pg r1.2 in
  let r2 := InputField.step r1.1.1 (InputField.Rerender (App.searchField (App.state pg'))) in
  r1.2 = [InputField.OnChange v]
  ∧ App.query (App.state pg') = v
  ∧ App.timers pg' = App.timers pg
  ∧ App.isLoading (App.state pg') = App.isLoading (App.state pg)
  ∧ InputField.input_value (InputField.shown r2.1.1) = v.
Proof.
  intros Hp Hm r1 pg' r2.
  assert (r1.2 = [InputField.OnChange v]) as Hcalls.
  { unfold r1. simpl. by rewrite Hp. }
  assert (pg' = {| App.state := App.setQuery (App.state pg) v;
                   App.timers := App.timers pg; App.darkClass := App.darkClass pg |})
    as Hpg by (unfold pg'; by rewrite Hcalls).
  split_and!; try done; try (by rewrite Hpg).
  unfold r2. rewrite Hpg.
  unfold InputField.mirrors in Hm. rewrite Hp in Hm. simpl in Hm.
  simpl. unfold InputField.handleChange. rewrite Hp. simpl.
  case_decide as Hdeps; [|done].
  simpl. unfold InputField.deps in Hdeps. simpl in Hdeps.
  injection Hdeps as Hq. injection Hm as Hm. congruence.
Qed.

Lemma search_field_echo_witness :
  let pg := App.mount false in
  let i := (InputField.mount (App.searchField (App.state pg))).1 in
  let r1 := InputField.step i (InputField.Change "sha") in
  let pg' := foldl App.onField pg r1.2 in
  InputField.input_value
    (InputField.shown
       (InputField.step r1.1.1
          (InputField.Rerender (App.searchField (App.state pg')))).1.1)
  = "sha".
Proof.
  intros pg i r1 pg'.
  exact (proj2 (proj2 (proj2 (proj2
           (search_field_echo pg i "sha" eq_refl eq_refl))))).
Defined.

(** ** App: the filter *)

(** X18.  The rows that the screen passes to the table are users of the
    initial data, in their order.  A query that is empty once trimmed and
    lowered keeps them all; otherwise exactly the users are kept whose
    lowered name, email or role contains the lowered and trimmed query.
    Once a query that is not empty has been applied, typing in the search box
    does not change the rows; while none is applied, the rows follow the text
    typed. *)
Theorem filtered_users (toLowerCase trim : string → string) (s : App.State) :
  let effective := if bool_decide (App.appliedQuery s = "") then App.query s
                   else App.appliedQuery s in
  let q := toLowerCase (trim effective) in
  App.filtered toLowerCase trim s `sublist_of` App.initialData
  ∧ (q = "" → App.filtered toLowerCase trim s = App.initialData)
  ∧ (q ≠ "" → ∀ u, u ∈ App.filtered toLowerCase trim s
                   ↔ u ∈ App.initialData ∧ App.matches toLowerCase q u = true)
  ∧ (App.appliedQuery s ≠ "" →
       ∀ v, App.filtered toLowerCase trim (App.setQuery s v)
            = App.filtered toLowerCase trim s)
  ∧ (App.appliedQuery s = "" →
       ∀ v, App.filtered toLowerCase trim (App.setQuery s v)
            = App.filtered toLowerCase trim
                {| App.query := v; App.appliedQuery := v;
                   App.selectedRows := App.selectedRows s;
                   App.darkMode := App.darkMode s; App.isLoading := App.isLoading s;
                   App.showEmptyState := App.showEmptyState s |}).
Proof.
  intros effective q. split_and!.
  - unfold App.filtered. case_bool_decide; [done|]. apply sublist_filter.
  - intros Hq. unfold App.filtered. fold effective. fold q.
    by rewrite bool_decide_eq_true_2.
  - intros Hq u. unfold App.filtered. fold effective. fold q.
    rewrite bool_decide_eq_false_2 by done.
    rewrite list_elem_of_filter, Is_true_true. tauto.
  - intros Happlied v. unfold App.filtered, App.setQuery.
    cbn [App.appliedQuery App.query].
    by rewrite (bool_decide_eq_false_2 (App.appliedQuery s = "")).
  - intros Happlied v. unfold App.filtered, App.setQuery.
    cbn [App.appliedQuery App.query]. rewrite Happlied.
    rewrite (bool_decide_eq_true_2 ("" = "")) by done.
    by destruct (bool_decide (v = "")).
Qed.

Lemma filtered_users_witness :
  let lohia := {| App.id := 3; App.name := "Lohia"; App.email := "lohia1234@gmail.com";
                  App.role := "Admin" |} in
  lohia ∈ App.filtered asciiLower trimSpaces (App.setQuery App.useState " ADMIN ")
  ∧ App.filtered asciiLower trimSpaces (App.setQuery App.useState "  ") = App.initialData.
Proof.
  intros lohia. split.
  - destruct (filtered_users asciiLower trimSpaces (App.setQuery App.useState " ADMIN "))
      as (_ & _ & Hmatch & _).
    apply Hmatch.
    + vm_compute. discriminate.
    + split; [|reflexivity]. unfold App.initialData. right. right. left.
  - destruct (filtered_users asciiLower trimSpaces (App.setQuery App.useState "  "))
      as (_ & Hblank & _).
    apply Hblank. reflexivity.
Defined.

(** ** App: searching *)

(** X19.  A search started while none is loading sets the loading flag and
    leaves one timer pending.  Until the timer runs, further searches and
    resets do nothing, while the text of the search box can still change.
    When the timer runs, the query applied is the one the search was started
    with, not the text typed since, and the loading flag is cleared. *)
Theorem search_flow (pg : App.Page) (term : option string) (typed : string) :
  App.isLoading (App.state pg) = false →
  App.timers pg = [] →
  let started := App.handleSearch pg term in
  let edited := App.onField started (InputField.OnChange typed) in
  let done := App.timeout edited in
  App.isLoading (App.state started) = true
  ∧ App.timers started = [nullish_or term (App.query (App.state pg))]
  ∧ (∀ t, App.handleSearch edited t = edited)
  ∧ App.resetSearch edited = edited
  ∧ App.query (App.state edited) = typed
  ∧ App.appliedQuery (App.state done) = nullish_or term (App.query (App.state pg))
  ∧ App.query (App.state done) = typed
  ∧ App.isLoading (App.state done) = false
  ∧ App.timers done = [].
Proof.
  intros Hload Htimers started edited done.
  unfold done, edited, started, App.timeout, App.onField, App.handleSearch,
    App.resetSearch.
  rewrite Hload, Htimers. simpl. by repeat split.
Qed.

Lemma search_flow_witness :
  let pg := App.run (App.mount false) [App.Field (InputField.OnChange "admin")] in
  App.appliedQuery
    (App.state
       (App.timeout
          (App.onField (App.handleSearch pg None) (InputField.OnChange "adminx"))))
  = "admin".
Proof.
  intros pg.
  exact (proj1 (proj2 (proj2 (proj2 (proj2 (proj2
           (search_flow pg None "adminx" eq_refl eq_refl))))))).
Defined.

Section PageFacts.
Import App.

Lemma step_one_search pg ev : one_search pg → one_search (step pg ev).
Proof.
  unfold one_search. intros Hpg.
  destruct ev as [term| | | | |c|c]; simpl;
    unfold handleSearch, resetSearch, timeout, toggleDarkMode, onField, onTable.
  - destruct (isLoading (state pg)) eqn:Hl; simpl; rewrite ?Hl; [done|].
    by rewrite Hpg.
  - destruct (isLoading (state pg)) eqn:Hl; simpl; by rewrite ?Hl.
  - destruct (timers pg) as [|q rest] eqn:Ht; simpl; rewrite ?Ht; [done|].
    destruct (isLoading (state pg)); [|done].
    by destruct rest.
  - done.
  - done.
  - destruct c; simpl; try done.
    unfold handleSearch.
    destruct (isLoading (state pg)) eqn:Hl; simpl; rewrite ?Hl; [done|].
    by rewrite Hpg.
  - by destruct c.
Qed.

Lemma step_dark pg ev :
  xorb (darkMode (state (step pg ev))) (darkClass (step pg ev))
  = xorb (darkMode (state pg)) (darkClass pg).
Proof.
  destruct ev as [term| | | | |c|c]; simpl;
    unfold handleSearch, resetSearch, timeout, toggleDarkMode, onField, onTable;
    try (by destruct (isLoading (state pg)));
    try (by destruct (timers pg)).
  - simpl. by destruct (darkMode (state pg)), (darkClass pg).
  - destruct c; simpl; try done. unfold handleSearch.
    by destruct (isLoading (state pg)).
  - by destruct c.
Qed.
End PageFacts.

(** X20.  Whatever the handlers of the screen are called with and in
    whatever order, from creation on: a timer is pending exactly while the
    loading flag is set, and never more than one; and the dark mode of the
    state differs from the [dark] class of the document exactly if the
    document had the class at creation. *)
Theorem page_invariants (dark : bool) (evs : list App.Event) :
  let pg := App.run (App.mount dark) evs in
  (App.isLoading (App.state pg) = true ↔ App.timers pg ≠ [])
  ∧ (length (App.timers pg) ≤ 1)%nat
  ∧ xorb (App.darkMode (App.state pg)) (App.darkClass pg) = dark.
Proof.
  intros pg.
  assert (App.one_search pg
          ∧ xorb (App.darkMode (App.state pg)) (App.darkClass pg) = dark) as [Hone Hdark].
  { unfold pg, App.run.
    induction evs as [|ev evs IH] using rev_ind; [by destruct dark|].
    rewrite foldl_app. simpl. destruct IH as [H1 H2]. split.
    - by apply step_one_search.
    - by rewrite step_dark. }
  unfold App.one_search in Hone.
  destruct (App.isLoading (App.state pg)) eqn:Hl.
  - split_and!; [|lia|done].
    split; [|done]. intros _ Ht. by rewrite Ht in Hone.
  - rewrite Hone. split_and!; [|simpl; lia|done].
    split; [done|]. by intros [].
Qed.

(** ** App: the table of users *)

(** X21.  The table of the screen shows the loading placeholder while a
    search is loading; when none is loading, it shows the empty placeholder
    if the empty state is switched on or no user passes the filter, and
    otherwise one row for each user that passes the filter, in the order of
    the initial data as long as no column is sorted.  When the header checkbox
    is then checked, the rows that the screen records as selected are these
    rows. *)
Theorem users_table (localeCompare : string → string → Z)
    (toLowerCase trim : string → string) (pg : App.Page) (ts : DataTable.State) :
  let s := App.state pg in
  let p := App.usersTable toLowerCase trim s in
  let shownUsers := if App.showEmptyState s then [] else App.filtered toLowerCase trim s in
  let view := DataTable.DataTable localeCompare p ts in
  (App.isLoading s = true → view = DataTable.LoadingView)
  ∧ (App.isLoading s = false → shownUsers = [] → view = DataTable.EmptyView)
  ∧ (App.isLoading s = false → DataTable.sortConfig ts = None →
       DataTable.row_key <$> DataTable.body_of view
       = (λ u, JNumber (App.id u)) <$> shownUsers)
  ∧ App.selectedRows
      (App.state (foldl App.onTable pg
                    (DataTable.handle p ts (DataTable.ChangeSelectAll true)).2))
    = App.toRow <$> shownUsers.
Proof.
  intros s p shownUsers view. split_and!.
  - intros Hl. unfold view, DataTable.DataTable, DataTable.loading_, p. simpl.
    by rewrite Hl.
  - intros Hl Hempty. unfold view, DataTable.DataTable, DataTable.loading_, p. simpl.
    rewrite Hl. simpl. fold s. fold shownUsers. by rewrite Hempty.
  - intros Hl Hsort. unfold view.
    rewrite (body_keys_unsorted localeCompare p ts); [|by rewrite <- Hl|done].
    unfold DataTable.dataKeys, p. simpl. fold s. fold shownUsers.
    rewrite <- list_fmap_compose. apply list_fmap_ext. by intros ? u _.
  - cbn [DataTable.handle]. rewrite (handleSelectAll_calls p ts true) by done. by simpl.
Qed.

Lemma users_table_witness :
  let pg := App.run (App.mount false) [App.Field (InputField.OnChange "sha")] in
  DataTable.row_key
    <$> DataTable.body_of
          (DataTable.DataTable codeCompare
             (App.usersTable asciiLower trimSpaces (App.state pg)) DataTable.useState)
  = [JNumber 2].
Proof.
  intros pg.
  exact (proj1 (proj2 (proj2 (users_table codeCompare asciiLower trimSpaces pg
                                DataTable.useState))) eq_refl eq_refl).
Defined.

(** ** DataTable: one key at a time *)

(** X22.  In multiple mode, in a table that owns its selection, a click on a
    row changes whether the key of that row is selected and nothing else: the
    key is selected afterwards exactly if it was not before, and every other
    key is selected afterwards exactly if it was before. *)
Theorem toggleRow_flips_one (p : DataTable.Props) (s : DataTable.State) (row : Row) :
  DataTable.selectable_ p = true →
  DataTable.selectMode_ p = DataTable.multiple →
  DataTable.selectedRowKeys p = None →
  let k := get row (DataTable.rowKey_ p) in
  let after := DataTable.internalSelectedKeys (DataTable.toggleRow p s row).1 in
  (k ∈ after ↔ k ∉ DataTable.internalSelectedKeys s)
  ∧ ∀ k', k' ≠ k → (k' ∈ after ↔ k' ∈ DataTable.internalSelectedKeys s).
Proof.
  intros Hsel Hm Hu k after. unfold after.
  rewrite toggleRow_multiple, updateSelection_uncontrolled by done.
  unfold DataTable.selectedKeys. rewrite Hu. simpl. fold k.
  destruct (includes (DataTable.internalSelectedKeys s) k) eqn:Hin.
  - apply includes_true in Hin. split.
    + rewrite list_elem_of_filter. tauto.
    + intros k' Hne. rewrite list_elem_of_filter. tauto.
  - apply includes_false in Hin. split.
    + rewrite elem_of_app, list_elem_of_singleton. tauto.
    + intros k' Hne. rewrite elem_of_app, list_elem_of_singleton. tauto.
Qed.

Lemma toggleRow_flips_one_witness :
  let p := tableProps users DataTable.multiple None in
  let s := {| DataTable.sortConfig := None;
              DataTable.internalSelectedKeys := [JNumber 2; JNumber 1; JNumber 2] |} in
  JNumber 1 ∈ DataTable.internalSelectedKeys
                (DataTable.toggleRow p s (user 2 "Shashank")).1.
Proof.
  intros p s.
  apply (proj2 (toggleRow_flips_one p s (user 2 "Shashank") eq_refl eq_refl eq_refl)
           (JNumber 1)).
  - vm_compute. discriminate.
  - right. left.
Defined.

(** X23.  Sorting moves the rendered rows and changes none of them: under
    any sort the table renders the rows that it renders without a sort, each
    with the same key, the same selection mark and the same cells. *)
Theorem sort_moves_rows (localeCompare : string → string → Z)
    (p : DataTable.Props) (s : DataTable.State) :
  let unsorted := {| DataTable.sortConfig := None;
                     DataTable.internalSelectedKeys := DataTable.internalSelectedKeys s |} in
  DataTable.body_of (DataTable.DataTable localeCompare p s)
  ≡ₚ DataTable.body_of (DataTable.DataTable localeCompare p unsorted)
  ∧ DataTable.selectAll_of (DataTable.DataTable localeCompare p s)
    = DataTable.selectAll_of (DataTable.DataTable localeCompare p unsorted).
Proof.
  intros unsorted. unfold DataTable.DataTable.
  destruct (DataTable.loading_ p); [done|].
  case_bool_decide; [done|]. cbn [DataTable.body_of DataTable.selectAll_of].
  split; [|done].
  rewrite sortedData_perm. simpl. done.
Qed.
